(** * A shallow embedding of [main.go]

    The program loads a CSV file into a column-oriented table
    ([CsvToSlice]), and forwards the table together with a question to a
    remote inference endpoint, waiting out the "model is loading" answers
    of the service in a loop of at most ten attempts ([ConnectAIModel]).

    Go strings are byte sequences: they are embedded as [string] (a list of
    8-bit [ascii]).  A Go [map[string][]string] is a [gmap string (list
    string)]: finite, keyed by the column name, without any order of its
    own.  A Go function returning [(T, error)] returns a [Result T]. *)

From Stdlib Require Import ZArith String Ascii List Floats.
From stdpp Require Import base gmap strings list.

Open Scope string_scope.
Open Scope list_scope.

(** ** Errors and results *)

(** The sentinel errors of [encoding/csv].  A [*csv.ParseError] also
    carries the line and column of the failure; the positions are not
    kept. *)
Inductive csvErr : Type :=
  | ErrBareQuote    (* bare quote in non-quoted field *)
  | ErrQuote        (* extraneous or missing quote in quoted field *)
  | ErrFieldCount.  (* wrong number of fields *)

(** The values of Go's [error] interface that the program can produce. *)
Inductive error : Type :=
  | ErrorString (msg : string)      (* errors.New, fmt.Errorf *)
  | ParseError (e : csvErr)         (* *csv.ParseError *)
  | TransportError (msg : string)   (* the *url.Error of http.Client.Do *)
  | JSONError (msg : string).       (* an error of encoding/json *)

Inductive Result (A : Type) : Type :=
  | Ok (a : A)
  | Err (e : error).
Arguments Ok {A} a.
Arguments Err {A} e.

Definition errors_New (msg : string) : error := ErrorString msg.

#[global] Instance csvErr_eq_dec : EqDecision csvErr.
Proof. solve_decision. Defined.

(** ** [encoding/csv]: the reader behind [reader.ReadAll()]

    The package belongs to Go's standard library and not to the program;
    its reader is embedded here as the library documents and implements
    it, for the options that the program uses.  [csv.NewReader] leaves every option at its zero value but [Comma]:
    [Comma = ','], [Comment = 0], [LazyQuotes = false],
    [TrimLeadingSpace = false] and [FieldsPerRecord = 0].  Only
    [FieldsPerRecord] is kept as a field of the reader, the other options
    are fixed at these values. *)
Module csv.

Definition NL : ascii := "010"%char.
Definition CR : ascii := "013"%char.
Definition Comma : ascii := ","%char.
Definition Quote : ascii := "034"%char.

Record Reader : Type := mkReader {
  FieldsPerRecord : Z;
  src : string
}.

Definition NewReader (data : string) : Reader :=
  {| FieldsPerRecord := 0; src := data |}.

(** [lengthNL]: 1 when the line ends in a newline, 0 otherwise. *)
Fixpoint endsNL (line : string) : bool :=
  match line with
  | EmptyString => false
  | String c EmptyString => Ascii.eqb c NL
  | String _ rest => endsNL rest
  end.

Definition lengthNL (line : string) : nat :=
  if endsNL line then 1 else 0.

(** [readLine] drops a carriage return that ends the input. *)
Fixpoint dropFinalCR (line : string) : string :=
  match line with
  | EmptyString => EmptyString
  | String c EmptyString =>
      if Ascii.eqb c CR then EmptyString else String c EmptyString
  | String c rest => String c (dropFinalCR rest)
  end.

(** [readLine] turns a final CR LF of a line into LF. *)
Fixpoint normalizeCRLF (line : string) : string :=
  match line with
  | EmptyString => EmptyString
  | String c1 (String c2 EmptyString as rest) =>
      if Ascii.eqb c1 CR && Ascii.eqb c2 NL
      then String NL EmptyString
      else String c1 rest
  | String c rest => String c (normalizeCRLF rest)
  end.

(** [bufio.Reader.ReadSlice] over an in-memory text: the bytes up
    to and including the first newline, or all that is left. *)
Fixpoint ReadSlice (s : string) : string * string :=
  match s with
  | EmptyString => (EmptyString, EmptyString)
  | String c s' =>
      if Ascii.eqb c NL then (String c EmptyString, s')
      else let (l, r) := ReadSlice s' in (String c l, r)
  end.

(** [Reader.readLine]: [None] is [io.EOF]; otherwise the next line and
    the input left after it. *)
Definition readLine (s : string) : option (string * string) :=
  match s with
  | EmptyString => None
  | _ =>
      let (line, rest) := ReadSlice s in
      let line := if endsNL line then line else dropFinalCR line in
      Some (normalizeCRLF line, rest)
  end.

(** All the lines [readLine] returns before [io.EOF], in one pass over
    the text; [cur] holds the bytes of the line being read. *)
Fixpoint readLinesFrom (cur : string) (s : string) : list string :=
  match s with
  | EmptyString =>
      match cur with
      | EmptyString => []
      | _ => [normalizeCRLF (dropFinalCR cur)]
      end
  | String c s' =>
      if Ascii.eqb c NL
      then normalizeCRLF (cur +:+ String c EmptyString) :: readLinesFrom EmptyString s'
      else readLinesFrom (cur +:+ String c EmptyString) s'
  end.

Definition readLines (s : string) : list string :=
  readLinesFrom EmptyString s.

(** The places of [readRecord]'s [parseField] loop. *)
Inductive mode : Type :=
  | FieldStart   (* top of the loop: a field begins *)
  | Unquoted     (* inside a non-quoted field *)
  | Quoted       (* inside a quoted field, after its opening quote *)
  | QuoteSeen.   (* inside a quoted field, just after a further quote *)

Inductive lineResult : Type :=
  | Done (fields : list string)                 (* break parseField *)
  | Open (fields : list string) (cur : string)  (* quoted field runs on *)
  | Fail (e : csvErr).

Definition isLast (rest : string) : bool :=
  match rest with EmptyString => true | _ => false end.

Definition snoc (cur : string) (c : ascii) : string :=
  cur +:+ String c EmptyString.

(** One line of [readRecord], byte by byte.  [fields] are the fields of
    the record that are complete, [cur] the bytes of the field being
    read ([recordBuffer] since the last field index). *)
Fixpoint scan (m : mode) (fields : list string) (cur : string)
         (line : string) : lineResult :=
  match line with
  | EmptyString =>
      match m with
      | Quoted => Open fields cur
      | _ => Done (fields ++ [cur])
      end
  | String c rest =>
      match m with
      | FieldStart =>
          if Ascii.eqb c Quote then scan Quoted fields EmptyString rest
          else if Ascii.eqb c Comma
          then scan FieldStart (fields ++ [cur]) EmptyString rest
          else if Ascii.eqb c NL && isLast rest then Done (fields ++ [cur])
          else scan Unquoted fields (snoc cur c) rest
      | Unquoted =>
          if Ascii.eqb c Comma
          then scan FieldStart (fields ++ [cur]) EmptyString rest
          else if Ascii.eqb c NL && isLast rest then Done (fields ++ [cur])
          else if Ascii.eqb c Quote then Fail ErrBareQuote
          else scan Unquoted fields (snoc cur c) rest
      | Quoted =>
          if Ascii.eqb c Quote then scan QuoteSeen fields cur rest
          else scan Quoted fields (snoc cur c) rest
      | QuoteSeen =>
          if Ascii.eqb c Quote then scan Quoted fields (snoc cur c) rest
          else if Ascii.eqb c Comma
          then scan FieldStart (fields ++ [cur]) EmptyString rest
          else if Ascii.eqb c NL && isLast rest then Done (fields ++ [cur])
          else Fail ErrQuote
      end
  end.

(** A line that [readRecord] skips: [len(line) == lengthNL(line)]. *)
Definition blank (line : string) : bool :=
  Nat.eqb (String.length line) (lengthNL line).

(** The field-count check that ends [readRecord]: [None] is the error
    [ErrFieldCount], [Some fpr'] the value of [FieldsPerRecord] after
    the record. *)
Definition checkFieldCount (fpr : Z) (fields : list string) : option Z :=
  if (0 <? fpr)%Z then
    if (Z.of_nat (length fields) =? fpr)%Z then Some fpr else None
  else if (fpr =? 0)%Z then Some (Z.of_nat (length fields))
  else Some fpr.

(** What [readRecord] does with the next line.  Between two records a
    blank line is skipped ([None]) and any other line starts a record;
    inside a quoted field ([pend] holds the record so far) every line
    goes on with the field. *)
Definition lineStep (pend : option (list string * string)) (line : string)
  : option lineResult :=
  match pend with
  | None =>
      if blank line then None
      else Some (scan FieldStart [] EmptyString line)
  | Some (fields, cur) => Some (scan Quoted fields cur line)
  end.

(** The loop of [ReadAll] over the lines of the input.  [pend] is the
    record whose quoted field was still open at the end of the last
    line.  The first error ends the loop and no record is returned. *)
Fixpoint readRecords (fpr : Z) (pend : option (list string * string))
         (lines : list string) : csvErr + list (list string) :=
  match lines with
  | [] =>
      match pend with
      | None => inr []            (* io.EOF between records *)
      | Some _ => inl ErrQuote    (* io.EOF inside a quoted field *)
      end
  | line :: lines' =>
      match lineStep pend line with
      | None => readRecords fpr None lines'
      | Some (Fail e) => inl e
      | Some (Open fields cur) =>
          readRecords fpr (Some (fields, cur)) lines'
      | Some (Done fields) =>
          match checkFieldCount fpr fields with
          | None => inl ErrFieldCount
          | Some fpr' =>
              match readRecords fpr' None lines' with
              | inl e => inl e
              | inr records => inr (fields :: records)
              end
          end
      end
  end.

Definition ReadAll (r : Reader) : csvErr + list (list string) :=
  readRecords (FieldsPerRecord r) None (readLines (src r)).

End csv.

Arguments csv.checkFieldCount : simpl never.

(** ** [CsvToSlice] *)

(** [if i < len(record) { result[col] = append(result[col], record[i]) }]:
    [record !! i] is [Some] exactly when [i < len(record)], and reading a
    key that the map does not hold gives the nil slice. *)
Definition appendCell (i : nat) (col : string)
           (result : gmap string (list string)) (record : list string)
  : gmap string (list string) :=
  match record !! i with
  | Some v => <[col := default [] (result !! col) ++ [v]]> result
  | None => result
  end.

(** [for _, record := range records[1:] { ... }] *)
Definition fillColumn (i : nat) (col : string) (rows : list (list string))
           (result : gmap string (list string)) : gmap string (list string) :=
  fold_left (appendCell i col) rows result.

(** [for i, col := range header { result[col] = make(...); ... }], from
    index [i] on. *)
Fixpoint buildColumns (i : nat) (header : list string)
         (rows : list (list string)) (result : gmap string (list string))
  : gmap string (list string) :=
  match header with
  | [] => result
  | col :: header' =>
      buildColumns (S i) header' rows
        (fillColumn i col rows (<[col := []]> result))
  end.

(** The part of [CsvToSlice] that follows [reader.ReadAll()]. *)
Definition tableOfRecords (records : list (list string))
  : Result (gmap string (list string)) :=
  match records with
  | [] => Err (errors_New "no data found")
  | header :: rows => Ok (buildColumns 0 header rows ∅)
  end.

Definition CsvToSlice (data : string) : Result (gmap string (list string)) :=
  match csv.ReadAll (csv.NewReader data) with
  | inl err => Err (ParseError err)
  | inr records => tableOfRecords records
  end.

(** ** The payload, the answer and [encoding/json] *)

Record Inputs : Type := mkInputs {
  Table : gmap string (list string);
  Query : string
}.

Record Response : Type := mkResponse {
  Answer : string;
  Coordinates : list (list Z);
  Cells : list string;
  Aggregator : string
}.

(** What [encoding/json] stores in an [interface{}]: nil, bool, float64,
    string, []interface{} and map[string]interface{}. *)
#[warnings="-register-all"]
Inductive any : Type :=
  | Nil
  | Bool (b : bool)
  | Float64 (f : float)
  | Str (s : string)
  | Slice (l : list any)
  | Map (m : list (string * any)).

(** The three uses of [encoding/json] in [ConnectAIModel].  The library is
    not part of the program: the program is embedded over any codec. *)
Class JSON : Type := {
  (* json.Marshal(payload) *)
  json_Marshal : Inputs -> Result string;
  (* json.Unmarshal(body, &result) with result of type map[string]interface{} *)
  json_Unmarshal : string -> Result (gmap string any);
  (* json.NewDecoder(resp.Body).Decode(&aiResponse) *)
  json_Decode : string -> Result Response
}.

(** ** [net/http] *)
Module http.

Record Request : Type := mkRequest {
  Method : string;
  URL : string;
  Header : gmap string (list string);
  Payload : string          (* the bytes of the request body *)
}.

Record Response : Type := mkResponse {
  Status : string;          (* e.g. 200 OK *)
  StatusCode : Z;
  Body : string             (* the bytes the body reader will deliver *)
}.

Definition StatusOK : Z := 200.
Definition StatusBadRequest : Z := 400.
Definition StatusInternalServerError : Z := 500.
Definition StatusServiceUnavailable : Z := 503.

(** [http.NewRequest] fails on an invalid method or a URL that does not
    parse; the program passes two constants that are valid. *)
Definition NewRequest (method url body : string) : Result Request :=
  Ok {| Method := method; URL := url; Header := ∅; Payload := body |}.

(** [req.Header.Set(key, value)]; both keys used are in canonical form. *)
Definition Header_Set (key value : string) (req : Request) : Request :=
  {| Method := Method req; URL := URL req;
     Header := <[key := [value]]> (Header req);
     Payload := Payload req |}.

(** An [*http.Client], seen from one call of [ConnectAIModel]: what
    [Do] returns to the request sent at the attempt of that index. *)
Definition Client : Type := nat -> Request -> Result Response.

End http.

(** [ioutil.ReadAll(resp.Body)]: all the bytes the reader still holds, and
    the reader after the call, which is at its end. *)
Definition ioutil_ReadAll (reader : string) : string * string :=
  (reader, EmptyString).

(** ** [time] *)

Definition wrap64 (z : Z) : Z := ((z + 2 ^ 63) mod 2 ^ 64 - 2 ^ 63)%Z.

Definition Second : Z := 1000000000.

(** [time.Duration(estimatedTime)]: the float64 truncated towards zero.
    When the value does not fit an int64 the Go specification leaves the
    result to the implementation; the value kept is the one of amd64. *)
Definition Duration_of_float64 (f : float) : Z :=
  let indefinite := (- 2 ^ 63)%Z in
  match Prim2SF f with
  | S754_zero _ => 0%Z
  | S754_finite s m e =>
      let a := if (0 <=? e)%Z then (Z.pos m * 2 ^ e)%Z
               else (Z.pos m / 2 ^ (- e))%Z in
      let v := if s then (- a)%Z else a in
      if ((- 2 ^ 63 <=? v) && (v <? 2 ^ 63))%Z then v else indefinite
  | _ => indefinite
  end.

(** ** [ConnectAIModel] *)

Record AIModelConnector : Type := mkConnector {
  Client : http.Client
}.

(** What one call does to the outside, in order. *)
Inductive event : Type :=
  | EvDo (req : http.Request)        (* c.Client.Do(req) *)
  | EvLog (estimatedTime : float)    (* log.Printf of the loading message *)
  | EvSleep (d : Z).                 (* time.Sleep(d), d in nanoseconds *)

Definition fmt_Errorf_status (status body : string) : error :=
  ErrorString ("failed to connect to AI model, status: " +:+ status
               +:+ ", response: " +:+ body).

Definition errMaxRetries : error :=
  ErrorString "max retries reached, failed to connect to AI model".

Definition apiURL : string :=
  "https://api-inference.huggingface.co/models/google/tapas-base-finetuned-wtq".

(** The request built before the loop (lines 68 to 79). *)
Definition buildRequest `{JSON} (payload : Inputs) (token : string)
  : Result http.Request :=
  match json_Marshal payload with
  | Err err => Err err
  | Ok data =>
      match http.NewRequest "POST" apiURL data with
      | Err err => Err err
      | Ok req =>
          Ok (http.Header_Set "Content-Type" "application/json"
                (http.Header_Set "Authorization" ("Bearer " +:+ token) req))
      end
  end.

(** The branch [resp.StatusCode == http.StatusServiceUnavailable]: the
    estimate when the loop is to wait and go on, and the state of the body
    reader after the branch.  The branch reads the body to its end. *)
Definition loadingEstimate `{JSON} (resp : http.Response)
  : option float * string :=
  if (http.StatusCode resp =? http.StatusServiceUnavailable)%Z then
    let (body, reader) := ioutil_ReadAll (http.Body resp) in
    match json_Unmarshal body with
    | Ok result =>
        match result !! "estimated_time" with
        | Some (Float64 estimatedTime) => (Some estimatedTime, reader)
        | _ => (None, reader)
        end
    | Err _ => (None, reader)
    end
  else (None, http.Body resp).

Inductive outcome : Type :=
  | Return (r : Result Response)
  | Continue.

(** The body of the loop at index [i].  The deferred [resp.Body.Close()]
    runs when [ConnectAIModel] returns and has no part in its result.  In
    the branch of the 200 the decoder reads the body as it was sent; the
    last [ioutil.ReadAll] reads what the branch of the 503 has left. *)
Definition attempt `{JSON} (c : AIModelConnector) (req : http.Request)
           (i : nat) : outcome * list event :=
  match Client c i req with
  | Err err => (Return (Err err), [EvDo req])
  | Ok resp =>
      if (http.StatusCode resp =? http.StatusOK)%Z then
        match json_Decode (http.Body resp) with
        | Err err => (Return (Err err), [EvDo req])
        | Ok aiResponse => (Return (Ok aiResponse), [EvDo req])
        end
      else
        match loadingEstimate resp with
        | (Some estimatedTime, _) =>
            (Continue,
             [EvDo req; EvLog estimatedTime;
              EvSleep (wrap64 (Duration_of_float64 estimatedTime * Second))])
        | (None, reader) =>
            let (body, _) := ioutil_ReadAll reader in
            (Return (Err (fmt_Errorf_status (http.Status resp) body)),
             [EvDo req])
        end
  end.

Definition maxRetries : nat := 10.

(** [for i := 0; i < maxRetries; i++ { ... }] with [remaining] the number
    of indices left, [maxRetries - i]. *)
Fixpoint retryLoop `{JSON} (c : AIModelConnector) (req : http.Request)
         (remaining i : nat) : Result Response * list event :=
  match remaining with
  | O => (Err errMaxRetries, [])
  | S remaining' =>
      match attempt c req i with
      | (Return r, evs) => (r, evs)
      | (Continue, evs) =>
          let (r, evs') := retryLoop c req remaining' (S i) in
          (r, evs ++ evs')
      end
  end.

Definition ConnectAIModel `{JSON} (c : AIModelConnector) (payload : Inputs)
           (token : string) : Result Response * list event :=
  match buildRequest payload token with
  | Err err => (Err err, [])
  | Ok req => retryLoop c req maxRetries 0
  end.

(** The number of requests sent. *)
Definition isDo (ev : event) : bool :=
  match ev with EvDo _ => true | _ => false end.

Definition requests (evs : list event) : nat :=
  length (List.filter isDo evs).

(** ** The handler of [POST /query] *)

Module gin.

(** The part of a [*gin.Context] the handler reads: the posted form. *)
Record Context : Type := mkContext {
  Form : gmap string (list string)
}.

(** [c.PostForm(key)]: the first value of the key, or the empty string
    when the form has no such key. *)
Definition PostForm (c : Context) (key : string) : string :=
  match Form c !! key with
  | Some (v :: _) => v
  | _ => EmptyString
  end.

(** A value of a [gin.H]. *)
Inductive value : Type :=
  | VString (s : string)
  | VCoordinates (l : list (list Z))
  | VCells (l : list string).

(** [c.HTML(code, name, obj)] *)
Record HTML : Type := mkHTML {
  code : Z;
  name : string;
  obj : gmap string value
}.

End gin.

(** [err.Error()], as [%v] prints it.  For a [*csv.ParseError] only the
    text of the sentinel is given, the position being left out. *)
Definition error_Error (err : error) : string :=
  match err with
  | ErrorString msg | TransportError msg | JSONError msg => msg
  | ParseError ErrBareQuote => "bare quote in non-quoted field"
  | ParseError ErrQuote => "extraneous or missing quote in quoted-field"
  | ParseError ErrFieldCount => "wrong number of fields"
  end.

Definition queryHandler `{JSON} (table : gmap string (list string))
           (token : string) (connector : AIModelConnector)
           (c : gin.Context) : gin.HTML * list event :=
  let query := gin.PostForm c "query" in
  if decide (query = EmptyString) then
    (gin.mkHTML http.StatusBadRequest "index.html"
       {[ "error" := gin.VString "Query cannot be empty" ]}, [])
  else
    let payload := {| Table := table; Query := query |} in
    match ConnectAIModel connector payload token with
    | (Err err, evs) =>
        (gin.mkHTML http.StatusInternalServerError "index.html"
           {[ "error" := gin.VString ("Error connecting to AI model: "
                                      +:+ error_Error err) ]}, evs)
    | (Ok response, evs) =>
        (gin.mkHTML http.StatusOK "index.html"
           (<["query" := gin.VString query]>
            (<["answer" := gin.VString (Answer response)]>
             (<["coordinates" := gin.VCoordinates (Coordinates response)]>
              (<["cells" := gin.VCells (Cells response)]>
               {[ "aggregator" := gin.VString (Aggregator response) ]})))),
         evs)
    end.

(** ** Functions used to state what the table holds *)

(** The values at index [i] of the rows that have such an index. *)
Definition column (i : nat) (rows : list (list string)) : list string :=
  omap (λ record : list string, record !! i) rows.

(** The highest index at which [col] occurs in [header]. *)
Fixpoint lastIndex (col : string) (header : list string) : option nat :=
  match header with
  | [] => None
  | h :: header' =>
      match lastIndex col header' with
      | Some j => Some (S j)
      | None => if decide (h = col) then Some 0 else None
      end
  end.

(** The keys of a table, as some enumeration of the map gives them. *)
Definition keys (t : gmap string (list string)) : list string :=
  (map_to_list t).*1.

(** A CSV text from its lines, each ended by a newline. *)
Definition text (lines : list string) : string :=
  fold_right (λ line rest, line +:+ String csv.NL rest) EmptyString lines.

(** The request that [ConnectAIModel] sends when the payload is
    marshalled to [data]. *)
Definition requestFor (data token : string) : http.Request :=
  http.Header_Set "Content-Type" "application/json"
    (http.Header_Set "Authorization" ("Bearer " +:+ token)
       {| http.Method := "POST"; http.URL := apiURL;
          http.Header := ∅; http.Payload := data |}).

(** A 503 answer whose body is a JSON object with the float64
    [estimated_time] equal to [est]. *)
Definition isLoading `{JSON} (resp : http.Response) (est : float) : Prop :=
  http.StatusCode resp = http.StatusServiceUnavailable
  ∧ ∃ result, json_Unmarshal (http.Body resp) = Ok result
            ∧ result !! "estimated_time" = Some (Float64 est).

(** An answer whose body gives no float64 [estimated_time]: it is not a
    JSON object, or the field is absent or of another type. *)
Definition noEstimate `{JSON} (resp : http.Response) : Prop :=
  ∀ result, json_Unmarshal (http.Body resp) = Ok result →
    ∀ est, result !! "estimated_time" ≠ Some (Float64 est).

(** What an attempt answered by a loading 503 does. *)
Definition loadingEvents (req : http.Request) (est : float) : list event :=
  [EvDo req; EvLog est;
   EvSleep (wrap64 (Duration_of_float64 est * Second))].

(** A byte that has no meaning of its own to the reader: not a comma, a
    quote, a newline or a carriage return. *)
Definition plainByte (c : ascii) : bool :=
  negb (Ascii.eqb c csv.Comma || Ascii.eqb c csv.Quote
        || Ascii.eqb c csv.NL || Ascii.eqb c csv.CR).

(** A byte that does not end a line. *)
Definition lineByte (c : ascii) : bool :=
  negb (Ascii.eqb c csv.NL || Ascii.eqb c csv.CR).

Fixpoint allBytes (P : ascii → bool) (s : string) : bool :=
  match s with
  | EmptyString => true
  | String c s' => P c && allBytes P s'
  end.

(** The line of a record: its fields with commas between them. *)
Fixpoint join (fields : list string) : string :=
  match fields with
  | [] => EmptyString
  | f :: fields' =>
      match fields' with
      | [] => f
      | _ => f +:+ String csv.Comma (join fields')
      end
  end.

(** A record that can be written without quotes: it has a field, its
    fields are made of plain bytes, and its line is not empty. *)
Definition plainRecord (fields : list string) : Prop :=
  fields ≠ [] ∧ Forall (λ f, allBytes plainByte f = true) fields
  ∧ join fields ≠ EmptyString.

(** ** A codec and answers of the service for the examples *)

Definition dq : string := String csv.Quote EmptyString.

Definition loadingBody : string :=
  "{" +:+ dq +:+ "estimated_time" +:+ dq +:+ ": 0.0}".

Definition overloadedBody : string :=
  "{" +:+ dq +:+ "error" +:+ dq +:+ ": " +:+ dq +:+ "overloaded" +:+ dq +:+ "}".

Definition answerBody : string :=
  "{" +:+ dq +:+ "answer" +:+ dq +:+ ": " +:+ dq +:+ "42" +:+ dq +:+ "}".

Definition sampleAnswer : Response :=
  {| Answer := "42"; Coordinates := []; Cells := []; Aggregator := "" |}.

(** A codec that knows the three bodies above and rejects the rest. *)
Definition exampleJSON : JSON :=
  {| json_Marshal := λ _, Ok "{}";
     json_Unmarshal := λ body,
       if decide (body = loadingBody)
       then Ok {[ "estimated_time" := Float64 0%float ]}
       else if decide (body = overloadedBody)
       then Ok {[ "error" := Str "overloaded" ]}
       else Err (JSONError "invalid character");
     json_Decode := λ body,
       if decide (body = answerBody) then Ok sampleAnswer
       else Err (JSONError "invalid character") |}.

Definition loading503 : http.Response :=
  {| http.Status := "503 Service Unavailable"; http.StatusCode := 503;
     http.Body := loadingBody |}.

Definition overloaded503 : http.Response :=
  {| http.Status := "503 Service Unavailable"; http.StatusCode := 503;
     http.Body := overloadedBody |}.

Definition answer200 : http.Response :=
  {| http.Status := "200 OK"; http.StatusCode := 200;
     http.Body := answerBody |}.

Definition notFound404 : http.Response :=
  {| http.Status := "404 Not Found"; http.StatusCode := 404;
     http.Body := "Not Found" |}.

(** The service keeps loading. *)
Definition alwaysLoading : AIModelConnector :=
  {| Client := λ _ _, Ok loading503 |}.

(** The service is loading once and answers then. *)
Definition loadingOnce : AIModelConnector :=
  {| Client := λ i _, match i with O => Ok loading503 | _ => Ok answer200 end |}.

(** The connection fails at the third request. *)
Definition brokenAtThird : AIModelConnector :=
  {| Client := λ i _, match i with
                      | 2 => Err (TransportError "connection refused")
                      | _ => Ok loading503
                      end |}.

(** The service answers 503 without an estimate. *)
Definition overloaded : AIModelConnector :=
  {| Client := λ _ _, Ok overloaded503 |}.

Definition samplePayload : Inputs :=
  {| Table := {[ "a" := ["1"] ]}; Query := "how many?" |}.

(** ** [main]: the start of the process *)

(** What [main] asks of the machine it runs on. *)
Record Host : Type := mkHost {
  godotenv_Load : option error;             (* the error of godotenv.Load() *)
  os_Getenv : string → string;              (* os.Getenv, after the load *)
  ioutil_ReadFile : string → Result string  (* ioutil.ReadFile *)
}.

(** How [main] goes on after its checks: [log.Fatalf(format, err)] ends
    the process; otherwise the router is set up and run, its handler of
    [POST /query] holding the table and the token. *)
Inductive Startup : Type :=
  | Fatalf (format : string) (err : option error)
  | Serve (table : gmap string (list string)) (token : string).

Definition csvFile : string := "data-series.csv".

Definition main (host : Host) : Startup :=
  match godotenv_Load host with
  | Some err =>
      Fatalf ("Error loading .env file: %v" +:+ String csv.NL EmptyString)
        (Some err)
  | None =>
      let token := os_Getenv host "HUGGINGFACE_TOKEN" in
      if decide (token = EmptyString) then
        Fatalf "HUGGINGFACE_TOKEN not found in .env file" None
      else
        match ioutil_ReadFile host csvFile with
        | Err err =>
            Fatalf ("Error reading CSV file: %v" +:+ String csv.NL EmptyString)
              (Some err)
        | Ok data =>
            match CsvToSlice data with
            | Err err =>
                Fatalf ("Error parsing CSV file: %v"
                        +:+ String csv.NL EmptyString) (Some err)
            | Ok table => Serve table token
            end
        end
  end.


(** ** More ways to write a CSV text *)

(** A text from its lines, each ended by a carriage return and a
    newline. *)
Definition textCRLF (lines : list string) : string :=
  fold_right (λ line rest, line +:+ String csv.CR (String csv.NL rest))
    EmptyString lines.

(** The line of a record, or an empty line. *)
Definition lineOf (o : option (list string)) : string :=
  match o with
  | Some fields => join fields
  | None => EmptyString
  end.

(** A field between quotes, the quotes inside it doubled. *)
Fixpoint escape (f : string) : string :=
  match f with
  | EmptyString => EmptyString
  | String c f' =>
      if Ascii.eqb c csv.Quote then String c (String c (escape f'))
      else String c (escape f')
  end.

Definition quoteField (f : string) : string :=
  String csv.Quote (escape f +:+ String csv.Quote EmptyString).

(** The error of [main.go] for a text without a record. *)
Definition errNoData : error := errors_New "no data found".

(** A host with the token in its environment and [data] in the CSV file,
    and an answer that is not JSON, for the examples. *)
Definition hostWith (data : string) : Host :=
  {| godotenv_Load := None;
     os_Getenv := λ key,
       if decide (key = "HUGGINGFACE_TOKEN") then "hf_token"
       else EmptyString;
     ioutil_ReadFile := λ file,
       if decide (file = csvFile) then Ok data
       else Err (ErrorString "open: no such file or directory") |}.

Definition garbled200 : http.Response :=
  {| http.Status := "200 OK"; http.StatusCode := 200;
     http.Body := "<html>" |}.

(** * Properties *)

(** ** The reader *)

Lemma scan_Done_length m fields cur line fs :
  csv.scan m fields cur line = csv.Done fs → 0 < length fs.
Proof.
  revert m fields cur.
  induction line as [|c rest IH]; intros m fields cur Hs; simpl in Hs.
  - destruct m; inversion Hs; subst; rewrite length_app; simpl; lia.
  - destruct m;
      repeat match type of Hs with
             | (if ?b then _ else _) = _ => destruct b
             end;
      try discriminate;
      try (inversion Hs; subst; rewrite length_app; simpl; lia);
      eauto.
Qed.

Lemma checkFieldCount_pos fpr fields fpr' :
  (0 < fpr)%Z → csv.checkFieldCount fpr fields = Some fpr' →
  fpr' = fpr ∧ Z.of_nat (length fields) = fpr.
Proof.
  unfold csv.checkFieldCount. intros Hpos.
  destruct (0 <? fpr)%Z eqn:E; [|lia].
  destruct (Z.of_nat (length fields) =? fpr)%Z eqn:E2; [|discriminate].
  intros [= <-]. split; [done|lia].
Qed.

Lemma checkFieldCount_zero fields :
  csv.checkFieldCount 0 fields = Some (Z.of_nat (length fields)).
Proof. reflexivity. Qed.

Lemma checkFieldCount_neg fpr fields :
  (fpr < 0)%Z → csv.checkFieldCount fpr fields = Some fpr.
Proof.
  unfold csv.checkFieldCount. intros Hneg.
  destruct (0 <? fpr)%Z eqn:E; [lia|].
  destruct (fpr =? 0)%Z eqn:E2; [lia|done].
Qed.

Lemma lineStep_Done_length pend line fs :
  csv.lineStep pend line = Some (csv.Done fs) → 0 < length fs.
Proof.
  unfold csv.lineStep. destruct pend as [[fields cur]|].
  - intros [= Hs]. by eapply scan_Done_length.
  - destruct (csv.blank line); [discriminate|].
    intros [= Hs]. by eapply scan_Done_length.
Qed.

(** Once [FieldsPerRecord] is positive, every record read has that many
    fields. *)
Lemma readRecords_pos lines : ∀ fpr pend records,
  (0 < fpr)%Z →
  csv.readRecords fpr pend lines = inr records →
  Forall (λ r, Z.of_nat (length r) = fpr) records.
Proof.
  induction lines as [|line lines IH]; intros fpr pend records Hpos Hr;
    simpl in Hr.
  - destruct pend; [discriminate|]. injection Hr as <-. constructor.
  - destruct (csv.lineStep pend line) as [[fields|fields cur|e]|];
      [|by eauto|discriminate|by eauto].
    destruct (csv.checkFieldCount fpr fields) as [fpr'|] eqn:Hc;
      [|discriminate].
    apply checkFieldCount_pos in Hc as [-> Hlen]; [|done].
    destruct (csv.readRecords fpr None lines) as [|recs] eqn:Hrec;
      [discriminate|].
    injection Hr as <-. constructor; eauto.
Qed.

(** With the default [FieldsPerRecord = 0], every record read has as many
    fields as the first. *)
Lemma readRecords_zero lines : ∀ pend header rows,
  csv.readRecords 0 pend lines = inr (header :: rows) →
  Forall (λ r, length r = length header) rows.
Proof.
  induction lines as [|line lines IH]; intros pend header rows Hr;
    simpl in Hr.
  - destruct pend; discriminate.
  - destruct (csv.lineStep pend line) as [[fields|fields cur|e]|] eqn:Hs;
      [|by eauto|discriminate|by eauto].
    apply lineStep_Done_length in Hs.
    rewrite ?checkFieldCount_zero in Hr.
    destruct (csv.readRecords (Z.of_nat (length fields)) None lines)
      as [|recs] eqn:Hrec; [discriminate|].
    injection Hr as <- <-.
    apply readRecords_pos in Hrec; [|lia].
    eapply Forall_impl; [exact Hrec|]. simpl. intros; lia.
Qed.

Lemma ReadAll_rectangular data header rows :
  csv.ReadAll (csv.NewReader data) = inr (header :: rows) →
  Forall (λ r, length r = length header) rows.
Proof. apply readRecords_zero. Qed.

(** A reader that does not check the field count ([FieldsPerRecord]
    negative) tells what the checking readers do on the same lines. *)
Lemma readRecords_unchecked_pos lines : ∀ fpr pend records,
  (0 < fpr)%Z →
  csv.readRecords (-1) pend lines = inr records →
  csv.readRecords fpr pend lines =
    if decide (Forall (λ r, Z.of_nat (length r) = fpr) records)
    then inr records else inl ErrFieldCount.
Proof.
  induction lines as [|line lines IH]; intros fpr pend records Hpos Hr;
    simpl in *.
  - destruct pend; [discriminate|]. injection Hr as <-.
    by rewrite decide_True.
  - destruct (csv.lineStep pend line) as [[fields|fields cur|e]|];
      [|by eauto|discriminate|by eauto].
    rewrite ?checkFieldCount_neg in Hr by lia.
    destruct (csv.readRecords (-1) None lines) as [|recs] eqn:Hrec;
      [discriminate|].
    injection Hr as <-.
    unfold csv.checkFieldCount.
    destruct (0 <? fpr)%Z eqn:E; [|lia].
    destruct (Z.of_nat (length fields) =? fpr)%Z eqn:E2.
    + rewrite (IH fpr None recs Hpos Hrec).
      destruct (decide (Forall _ recs)) as [Hall|Hnot].
      * rewrite decide_True; [done|]. constructor; [lia|done].
      * rewrite decide_False; [done|]. by intros [_ ?]%Forall_cons.
    + rewrite decide_False; [done|]. intros [? _]%Forall_cons. lia.
Qed.

Lemma readRecords_unchecked_zero lines : ∀ pend header rows,
  csv.readRecords (-1) pend lines = inr (header :: rows) →
  csv.readRecords 0 pend lines =
    if decide (Forall (λ r, length r = length header) rows)
    then inr (header :: rows) else inl ErrFieldCount.
Proof.
  induction lines as [|line lines IH]; intros pend header rows Hr;
    simpl in *.
  - destruct pend; discriminate.
  - destruct (csv.lineStep pend line) as [[fields|fields cur|e]|] eqn:Hs;
      [|by eauto|discriminate|by eauto].
    apply lineStep_Done_length in Hs.
    rewrite ?checkFieldCount_neg in Hr by lia.
    rewrite ?checkFieldCount_zero.
    destruct (csv.readRecords (-1) None lines) as [|recs] eqn:Hrec;
      [discriminate|].
    injection Hr as <- <-.
    rewrite (readRecords_unchecked_pos lines (Z.of_nat (length fields))
               None recs) by (done || lia).
    destruct (decide (Forall (λ r, Z.of_nat (length r) = _) recs))
      as [Hall|Hnot].
    + rewrite decide_True; [done|].
      eapply Forall_impl; [exact Hall|]. simpl; intros; lia.
    + rewrite decide_False; [done|]. intros Hall. apply Hnot.
      eapply Forall_impl; [exact Hall|]. simpl; intros; lia.
Qed.

(** ** Texts without a record *)

Lemma readRecords_after_Done fpr fields lines :
  match csv.checkFieldCount fpr fields with
  | None => inl ErrFieldCount
  | Some fpr' =>
      match csv.readRecords fpr' None lines with
      | inl e => inl e
      | inr records => inr (fields :: records)
      end
  end ≠ inr [].
Proof.
  destruct (csv.checkFieldCount fpr fields) as [fpr'|]; [|done].
  by destruct (csv.readRecords fpr' None lines).
Qed.

Lemma readRecords_pending_not_nil lines : ∀ fpr p,
  csv.readRecords fpr (Some p) lines ≠ inr [].
Proof.
  induction lines as [|line lines IH]; intros fpr [fields cur]; [done|].
  cbn [csv.readRecords csv.lineStep].
  destruct (csv.scan csv.Quoted fields cur line) as [fs|fs c|e];
    [apply readRecords_after_Done|apply IH|done].
Qed.

(** The reader finds no record exactly in the texts whose lines are all
    blank. *)
Lemma readRecords_nil_iff lines : ∀ fpr,
  csv.readRecords fpr None lines = inr []
  ↔ Forall (λ line, csv.blank line = true) lines.
Proof.
  induction lines as [|line lines IH]; intros fpr.
  - split; [constructor|done].
  - cbn [csv.readRecords csv.lineStep].
    destruct (csv.blank line) eqn:Hb.
    + rewrite IH. split; [by constructor|by intros [_ ?]%Forall_cons].
    + split.
      * intros Hr. exfalso.
        destruct (csv.scan csv.FieldStart [] EmptyString line) as [fs|fs c|e];
          [by eapply readRecords_after_Done
          |by eapply readRecords_pending_not_nil|done].
      * intros [Hb' _]%Forall_cons. congruence.
Qed.

Lemma ReadAll_nil_iff data :
  csv.ReadAll (csv.NewReader data) = inr []
  ↔ Forall (λ line, csv.blank line = true) (csv.readLines data).
Proof. apply readRecords_nil_iff. Qed.

(** ** The lines of the text *)

Lemma append_String c s t : String c s +:+ t = String c (s +:+ t).
Proof. reflexivity. Qed.

Lemma append_assoc s t u : (s +:+ t) +:+ u = s +:+ t +:+ u.
Proof.
  induction s as [|c s IH]; [done|]. rewrite !append_String. by f_equal.
Qed.

Lemma append_nil_r s : s +:+ EmptyString = s.
Proof. induction s as [|c s IH]; [done|]. rewrite append_String. by f_equal. Qed.

Lemma append_snoc_nonempty cur c : cur +:+ String c EmptyString ≠ EmptyString.
Proof. by destruct cur. Qed.

Lemma ReadSlice_nonempty c s : (csv.ReadSlice (String c s)).1 ≠ EmptyString.
Proof.
  cbn [csv.ReadSlice]. destruct (Ascii.eqb c csv.NL); [done|].
  by destruct (csv.ReadSlice s).
Qed.

Lemma endsNL_String c l :
  l ≠ EmptyString → csv.endsNL (String c l) = csv.endsNL l.
Proof. by destruct l. Qed.

(** [readLinesFrom] reads a line as [ReadSlice] and [readLine] do, and
    goes on with the rest of the text. *)
Lemma readLinesFrom_ReadSlice s : ∀ cur,
  s ≠ EmptyString →
  csv.readLinesFrom cur s =
    (if csv.endsNL (csv.ReadSlice s).1
     then csv.normalizeCRLF (cur +:+ (csv.ReadSlice s).1)
     else csv.normalizeCRLF (csv.dropFinalCR (cur +:+ (csv.ReadSlice s).1)))
    :: csv.readLinesFrom EmptyString (csv.ReadSlice s).2.
Proof.
  induction s as [|c s IH]; intros cur Hne; [done|].
  cbn [csv.readLinesFrom csv.ReadSlice].
  destruct (Ascii.eqb c csv.NL) eqn:E.
  - cbn [fst snd csv.endsNL]. by rewrite E.
  - destruct s as [|c' s'].
    + cbn [csv.ReadSlice csv.readLinesFrom fst snd csv.endsNL]. rewrite E.
      pose proof (append_snoc_nonempty cur c).
      by destruct (cur +:+ String c EmptyString).
    + rewrite IH by done.
      pose proof (ReadSlice_nonempty c' s') as Hl.
      destruct (csv.ReadSlice (String c' s')) as [l r]. cbn [fst snd] in *.
      rewrite (endsNL_String c l Hl).
      by rewrite append_assoc, append_String.
Qed.

(** The lines of the text are what the successive calls of [readLine]
    return until [io.EOF]. *)
Lemma readLines_readLine s :
  csv.readLines s =
    match csv.readLine s with
    | None => []
    | Some (line, rest) => line :: csv.readLines rest
    end.
Proof.
  destruct s as [|c s]; [done|].
  unfold csv.readLines. rewrite readLinesFrom_ReadSlice by done.
  unfold csv.readLine.
  destruct (csv.ReadSlice (String c s)) as [l r]. cbn [fst snd].
  by destruct (csv.endsNL l).
Qed.

(** ** Records written without quotes are read back as they are *)

Lemma plainByte_spec c :
  plainByte c = true →
  Ascii.eqb c csv.Comma = false ∧ Ascii.eqb c csv.Quote = false
  ∧ Ascii.eqb c csv.NL = false ∧ Ascii.eqb c csv.CR = false.
Proof.
  unfold plainByte.
  destruct (Ascii.eqb c csv.Comma), (Ascii.eqb c csv.Quote),
    (Ascii.eqb c csv.NL), (Ascii.eqb c csv.CR); simpl; auto.
Qed.

Lemma plainByte_lineByte c : plainByte c = true → lineByte c = true.
Proof.
  intros (_ & _ & Hnl & Hcr)%plainByte_spec. unfold lineByte.
  by rewrite Hnl, Hcr.
Qed.

Lemma allBytes_append P s t :
  allBytes P (s +:+ t) = allBytes P s && allBytes P t.
Proof.
  induction s as [|c s IH]; [done|].
  rewrite append_String. cbn [allBytes]. rewrite IH. apply andb_assoc.
Qed.

Lemma allBytes_plain_line f :
  allBytes plainByte f = true → allBytes lineByte f = true.
Proof.
  induction f as [|c f IH]; [done|]. cbn [allBytes].
  intros [Hc Hf]%andb_true_iff. apply andb_true_iff.
  split; [by apply plainByte_lineByte|by apply IH].
Qed.

Lemma join_cons f g fields :
  join (f :: g :: fields) = f +:+ String csv.Comma (join (g :: fields)).
Proof. reflexivity. Qed.

Lemma join_lineBytes fields :
  Forall (λ f, allBytes plainByte f = true) fields →
  allBytes lineByte (join fields) = true.
Proof.
  induction 1 as [|f fields Hf Hfs IH]; [done|].
  destruct fields as [|g fields]; [by apply allBytes_plain_line|].
  rewrite join_cons, allBytes_append. cbn [allBytes].
  rewrite IH. by rewrite (allBytes_plain_line _ Hf).
Qed.

(** The bytes of a field without quotes are taken one by one. *)
Lemma scan_plain f : ∀ m fields cur rest,
  allBytes plainByte f = true →
  m = csv.FieldStart ∨ m = csv.Unquoted →
  csv.scan m fields cur (f +:+ rest) =
    csv.scan (match f with EmptyString => m | _ => csv.Unquoted end)
      fields (cur +:+ f) rest.
Proof.
  induction f as [|c f IH]; intros m fields cur rest Hf Hm.
  - by rewrite append_nil_r.
  - cbn [allBytes] in Hf. apply andb_true_iff in Hf as [Hc Hf].
    apply plainByte_spec in Hc as (Hcomma & Hquote & Hnl & _).
    rewrite append_String.
    assert (Hstep : csv.scan m fields cur (String c (f +:+ rest)) =
              csv.scan csv.Unquoted fields (csv.snoc cur c) (f +:+ rest)).
    { destruct Hm as [-> | ->]; cbn [csv.scan];
        by rewrite Hcomma, Hquote, Hnl. }
    rewrite Hstep, (IH csv.Unquoted) by auto.
    unfold csv.snoc. rewrite append_assoc, append_String.
    by destruct f.
Qed.

Lemma scan_newline m fields cur :
  m = csv.FieldStart ∨ m = csv.Unquoted →
  csv.scan m fields cur (String csv.NL EmptyString)
  = csv.Done (fields ++ [cur]).
Proof. by intros [-> | ->]. Qed.

Lemma scan_comma m fields cur rest :
  m = csv.FieldStart ∨ m = csv.Unquoted →
  csv.scan m fields cur (String csv.Comma rest)
  = csv.scan csv.FieldStart (fields ++ [cur]) EmptyString rest.
Proof. by intros [-> | ->]. Qed.

Lemma scan_mode_plain (f : string) m :
  m = csv.FieldStart ∨ m = csv.Unquoted →
  match f with EmptyString => m | _ => csv.Unquoted end = csv.FieldStart
  ∨ match f with EmptyString => m | _ => csv.Unquoted end = csv.Unquoted.
Proof. destruct f; auto. Qed.

(** A line of plain fields is split at its commas, and nowhere else. *)
Lemma scan_join fs : ∀ f m fields cur,
  Forall (λ f, allBytes plainByte f = true) (f :: fs) →
  m = csv.FieldStart ∨ m = csv.Unquoted →
  csv.scan m fields cur (join (f :: fs) +:+ String csv.NL EmptyString)
  = csv.Done (fields ++ (cur +:+ f) :: fs).
Proof.
  induction fs as [|g fs IH]; intros f m fields cur Hall Hm;
    apply Forall_cons in Hall as [Hf Hfs].
  - cbn [join]. rewrite scan_plain by done.
    by apply scan_newline, scan_mode_plain.
  - rewrite join_cons, append_assoc, append_String.
    rewrite scan_plain by done.
    rewrite scan_comma by by apply scan_mode_plain.
    rewrite IH by auto. by rewrite <- app_assoc.
Qed.

Lemma normalizeCRLF_lineBytes s :
  allBytes lineByte s = true →
  csv.normalizeCRLF (s +:+ String csv.NL EmptyString)
  = s +:+ String csv.NL EmptyString.
Proof.
  induction s as [|c s IH]; [done|]. cbn [allBytes].
  intros [Hc Hs]%andb_true_iff. rewrite append_String.
  assert (Hcr : Ascii.eqb c csv.CR = false).
  { unfold lineByte in Hc. destruct (Ascii.eqb c csv.CR); [|done].
    by rewrite orb_true_r in Hc. }
  destruct s as [|c' s].
  - cbn. by rewrite Hcr.
  - specialize (IH Hs). rewrite append_String in *.
    cbn [csv.normalizeCRLF] in *.
    destruct (s +:+ String csv.NL EmptyString) eqn:Hs'.
    + by destruct s.
    + by rewrite IH.
Qed.

Lemma readLinesFrom_line line : ∀ cur rest,
  allBytes lineByte line = true →
  csv.readLinesFrom cur (line +:+ String csv.NL rest) =
    csv.normalizeCRLF (cur +:+ line +:+ String csv.NL EmptyString)
    :: csv.readLinesFrom EmptyString rest.
Proof.
  induction line as [|c line IH]; intros cur rest Hline.
  - done.
  - cbn [allBytes] in Hline. apply andb_true_iff in Hline as [Hc Hline].
    rewrite append_String. cbn [csv.readLinesFrom].
    assert (Hnl : Ascii.eqb c csv.NL = false).
    { unfold lineByte in Hc. by destruct (Ascii.eqb c csv.NL). }
    rewrite Hnl, IH by done. by rewrite append_assoc, append_String.
Qed.

Lemma readLines_text lines :
  Forall (λ line, allBytes lineByte line = true) lines →
  csv.readLines (text lines)
  = (λ line, line +:+ String csv.NL EmptyString) <$> lines.
Proof.
  unfold csv.readLines.
  induction 1 as [|line lines Hline _ IH]; [done|].
  cbn [text fold_right]. rewrite readLinesFrom_line by done.
  rewrite fmap_cons. f_equal; [|exact IH].
  by apply normalizeCRLF_lineBytes.
Qed.

Lemma endsNL_append_NL s :
  csv.endsNL (s +:+ String csv.NL EmptyString) = true.
Proof.
  induction s as [|c s IH]; [done|]. rewrite append_String.
  rewrite endsNL_String; [done|]. by destruct s.
Qed.

Lemma blank_line_false s :
  s ≠ EmptyString → csv.blank (s +:+ String csv.NL EmptyString) = false.
Proof.
  intros Hs. unfold csv.blank, csv.lengthNL. rewrite endsNL_append_NL.
  destruct s as [|c s]; [done|]. rewrite append_String.
  cbn [String.length]. by destruct s.
Qed.

Lemma readRecords_plain rows :
  Forall plainRecord rows →
  csv.readRecords (-1) None
    ((λ line, line +:+ String csv.NL EmptyString) <$> (join <$> rows))
  = inr rows.
Proof.
  induction 1 as [|row rows (Hne & Hplain & Hline) _ IH]; [done|].
  rewrite !fmap_cons. cbn [csv.readRecords].
  unfold csv.lineStep. rewrite blank_line_false by done.
  destruct row as [|f fs]; [done|].
  rewrite scan_join by auto. cbn [app].
  rewrite checkFieldCount_neg by lia. by rewrite IH.
Qed.

(** A text of records written without quotes, read without the check of
    the field count, gives the records back, byte for byte. *)
Lemma ReadAll_plain rows :
  Forall plainRecord rows →
  csv.ReadAll (csv.mkReader (-1) (text (join <$> rows))) = inr rows.
Proof.
  intros Hrows. unfold csv.ReadAll. cbn [csv.src csv.FieldsPerRecord].
  rewrite readLines_text; [by apply readRecords_plain|].
  apply Forall_fmap. eapply Forall_impl; [exact Hrows|].
  intros row (_ & Hplain & _). by apply join_lineBytes.
Qed.

(** With the default reader such a text is read back when its records
    have the same number of fields. *)
Lemma ReadAll_plain_rectangular header rows :
  Forall plainRecord (header :: rows) →
  Forall (λ r, length r = length header) rows →
  csv.ReadAll (csv.NewReader (text (join <$> header :: rows)))
  = inr (header :: rows).
Proof.
  intros Hplain Hrect. pose proof (ReadAll_plain _ Hplain) as Hread.
  unfold csv.ReadAll in *. cbn [csv.src csv.FieldsPerRecord csv.NewReader] in *.
  rewrite (readRecords_unchecked_zero _ _ _ _ Hread).
  by rewrite decide_True.
Qed.

(** ** The loop that fills the table *)

Lemma column_cons i record rows :
  column i (record :: rows) =
    match record !! i with
    | Some v => v :: column i rows
    | None => column i rows
    end.
Proof. reflexivity. Qed.

Lemma column_app i rows1 rows2 :
  column i (rows1 ++ rows2) = column i rows1 ++ column i rows2.
Proof. unfold column. apply omap_app. Qed.

Lemma fillColumn_spec i col rows : ∀ (m : gmap string (list string)) l,
  m !! col = Some l →
  fillColumn i col rows m = <[col := l ++ column i rows]> m.
Proof.
  unfold fillColumn.
  induction rows as [|record rows IH]; intros m l Hm.
  - simpl. rewrite app_nil_r. by rewrite insert_id.
  - rewrite column_cons. cbn [fold_left]. unfold appendCell at 2.
    destruct (record !! i) as [v|].
    + rewrite (IH _ (l ++ [v])).
      * rewrite insert_insert_eq. by rewrite <- app_assoc.
      * rewrite Hm. simpl. apply lookup_insert_eq.
    + by apply IH.
Qed.

Lemma buildColumns_lookup header : ∀ i rows (m : gmap string (list string)) k,
  buildColumns i header rows m !! k =
    match lastIndex k header with
    | Some j => Some (column (i + j) rows)
    | None => m !! k
    end.
Proof.
  induction header as [|col header IH]; intros i rows m k; simpl; [done|].
  rewrite IH.
  rewrite (fillColumn_spec i col rows _ []) by apply lookup_insert_eq.
  rewrite insert_insert_eq. simpl.
  destruct (lastIndex k header) as [j|].
  - f_equal. f_equal. lia.
  - destruct (decide (col = k)) as [->|Hne].
    + rewrite lookup_insert_eq. f_equal. f_equal. lia.
    + by rewrite lookup_insert_ne.
Qed.

Lemma lastIndex_Some col header : ∀ j,
  lastIndex col header = Some j →
  header !! j = Some col ∧ ∀ j', j < j' → header !! j' ≠ Some col.
Proof.
  induction header as [|h header IH]; intros j; simpl; [done|].
  destruct (lastIndex col header) as [j0|] eqn:Hl.
  - intros [= <-]. destruct (IH j0 eq_refl) as [Hj Hmax]. split; [done|].
    intros [|j'] Hlt; [lia|]. simpl. apply Hmax. lia.
  - destruct (decide (h = col)) as [->|Hne]; [|done].
    intros [= <-]. split; [done|].
    intros [|j'] Hlt; [lia|]. simpl. intros Hin.
    assert (Hnone : ∀ l, lastIndex col l = None → col ∉ l).
    { clear. induction l as [|x l IHl]; simpl; [intros _; apply not_elem_of_nil|].
      destruct (lastIndex col l); [done|].
      destruct (decide (x = col)); [done|].
      intros _. apply not_elem_of_cons. split; [done|]. by apply IHl. }
    apply (Hnone _ Hl). by eapply list_elem_of_lookup_2.
Qed.

Lemma lastIndex_None col header :
  lastIndex col header = None ↔ col ∉ header.
Proof.
  induction header as [|h header IH]; simpl.
  - split; [intros _; apply not_elem_of_nil|done].
  - destruct (lastIndex col header) as [j|].
    + split; [done|]. intros Hnot. exfalso.
      destruct IH as [_ IH]. 
      assert (Hc : col ∉ header) by (intros ?; apply Hnot; by right).
      by specialize (IH Hc).
    + destruct (decide (h = col)) as [->|Hne].
      * split; [done|]. intros Hnot. exfalso. apply Hnot. by left.
      * split; [|done]. intros _. apply not_elem_of_cons.
        split; [done|]. by apply IH.
Qed.

Lemma lastIndex_elem col header :
  col ∈ header → ∃ j, lastIndex col header = Some j.
Proof.
  intros Hin. destruct (lastIndex col header) as [j|] eqn:Hl; [by eexists|].
  by apply lastIndex_None in Hl.
Qed.

Lemma buildColumns_dom header i rows :
  dom (buildColumns i header rows ∅) = list_to_set header.
Proof.
  apply set_eq. intros k.
  rewrite elem_of_dom, buildColumns_lookup, elem_of_list_to_set.
  destruct (lastIndex k header) as [j|] eqn:Hl.
  - split; [intros _|by eauto].
    apply lastIndex_Some in Hl as [Hj _]. by eapply list_elem_of_lookup_2.
  - rewrite lookup_empty. apply lastIndex_None in Hl.
    split; [by intros [? ?]|done].
Qed.

(** In a rectangular table every row gives its value to the column. *)
Lemma column_full j rows n :
  j < n → Forall (λ r : list string, length r = n) rows →
  Forall2 (λ v r, r !! j = Some v) (column j rows) rows.
Proof.
  intros Hj. induction 1 as [|r rows Hr _ IH]; [constructor|].
  rewrite column_cons.
  destruct (lookup_lt_is_Some_2 r j) as [v Hv]; [lia|].
  rewrite Hv. by constructor.
Qed.

Lemma column_length j rows :
  length (column j rows) =
  length (filter (λ r : list string, j < length r) rows).
Proof.
  induction rows as [|r rows IH]; [done|].
  rewrite column_cons, filter_cons.
  destruct (r !! j) as [v|] eqn:Hv.
  - apply lookup_lt_Some in Hv. rewrite decide_True by done.
    simpl. by rewrite IH.
  - apply lookup_ge_None in Hv. rewrite decide_False by lia. done.
Qed.

Lemma filter_key_absent {A} (l : list (string * A)) k :
  k ∉ l.*1 → filter (λ kv : string * A, kv.1 = k) l = [].
Proof.
  induction l as [|[k' v'] l IH]; intros Hk; [done|].
  rewrite fmap_cons in Hk. apply not_elem_of_cons in Hk as [Hne Hk].
  rewrite filter_cons_False by (simpl; intros ->; by apply Hne). by apply IH.
Qed.

(** An entry of a map is the only one of its key in any enumeration. *)
Lemma filter_key_unique {A} (l : list (string * A)) k v :
  NoDup (l.*1) → (k, v) ∈ l →
  filter (λ kv : string * A, kv.1 = k) l = [(k, v)].
Proof.
  induction l as [|[k' v'] l IH]; intros Hnd Hin.
  - by apply elem_of_nil in Hin.
  - rewrite fmap_cons in Hnd. apply NoDup_cons in Hnd as [Hk' Hnd].
    apply elem_of_cons in Hin as [[= <- <-]|Hin].
    + rewrite filter_cons_True by done. f_equal. by apply filter_key_absent.
    + assert (k' ≠ k).
      { intros ->. apply Hk'. apply list_elem_of_fmap. by exists (k, v). }
      rewrite filter_cons_False by done. by apply IH.
Qed.

Lemma map_to_list_entry (t : gmap string (list string)) k v :
  t !! k = Some v →
  filter (λ kv : string * list string, kv.1 = k) (map_to_list t) = [(k, v)].
Proof.
  intros Hk. apply filter_key_unique.
  - apply NoDup_fst_map_to_list.
  - by apply elem_of_map_to_list.
Qed.

(** ** [CsvToSlice] *)

Lemma CsvToSlice_records data records :
  csv.ReadAll (csv.NewReader data) = inr records →
  CsvToSlice data = tableOfRecords records.
Proof. unfold CsvToSlice. by intros ->. Qed.

Lemma tableOfRecords_lookup header rows col j :
  lastIndex col header = Some j →
  buildColumns 0 header rows ∅ !! col = Some (column j rows).
Proof. intros Hl. by rewrite buildColumns_lookup, Hl. Qed.

(** A text whose second line is shorter than its header, read without
    and with the check of the field count. *)
Example short_row_reading :
  csv.ReadAll (csv.mkReader (-1) (text ["a,b,c"; "1,2"]))
    = inr [["a"; "b"; "c"]; ["1"; "2"]]
  ∧ csv.ReadAll (csv.NewReader (text ["a,b,c"; "1,2"])) = inl ErrFieldCount.
Proof. split; reflexivity. Qed.

(** C1, as the claim states it, fails: the text with header [a,b,c] and the
    data row [1,2] has a row shorter than its header, and [CsvToSlice]
    returns the reader's field-count error for it instead of a table. *)
Lemma C1_short_row_is_an_error :
  csv.ReadAll (csv.mkReader (-1) (text ["a,b,c"; "1,2"]))
    = inr [["a"; "b"; "c"]; ["1"; "2"]]
  ∧ CsvToSlice (text ["a,b,c"; "1,2"]) = Err (ParseError ErrFieldCount)
  ∧ ¬ ∃ t, CsvToSlice (text ["a,b,c"; "1,2"]) = Ok t.
Proof.
  split; [reflexivity|]. split; [reflexivity|].
  intros [t Ht]. vm_compute in Ht. discriminate.
Qed.

(** C1, amended: when the text has a header row and a later data row with
    fewer fields than the header (as a reader that does not check the
    field count shows), [CsvToSlice] fails with the reader's
    wrong-number-of-fields error.  The loop that fills the table, run on
    such records, takes from the short row the value of every column whose
    index is within the row and nothing for the columns beyond it. *)
Theorem C1_short_row_rejected_loop_truncates
    data header before row after :
  csv.ReadAll (csv.mkReader (-1) data)
    = inr (header :: before ++ row :: after) →
  length row < length header →
  CsvToSlice data = Err (ParseError ErrFieldCount)
  ∧ ∃ t, tableOfRecords (header :: before ++ row :: after) = Ok t
       ∧ ∀ col j, lastIndex col header = Some j →
           (∀ v, row !! j = Some v →
              t !! col = Some (column j before ++ v :: column j after))
           ∧ ((length row ≤ j)%nat →
              t !! col = Some (column j before ++ column j after)).
Proof.
  intros Hread Hshort. split.
  - unfold CsvToSlice, csv.ReadAll in *. simpl in *.
    rewrite (readRecords_unchecked_zero _ _ _ _ Hread).
    rewrite decide_False; [done|].
    intros Hall. apply Forall_app in Hall as [_ Hall].
    apply Forall_cons in Hall as [Hrow _]. lia.
  - eexists. split; [reflexivity|].
    intros col j Hl. rewrite (tableOfRecords_lookup _ _ _ _ Hl).
    rewrite column_app, column_cons. split.
    + by intros v ->.
    + intros Hj. apply lookup_ge_None in Hj. by rewrite Hj.
Qed.

Lemma C1_short_row_rejected_loop_truncates_witness :
  CsvToSlice (text ["a,b,c"; "1,2"]) = Err (ParseError ErrFieldCount)
  ∧ ∃ t, tableOfRecords (["a"; "b"; "c"] :: [] ++ ["1"; "2"] :: []) = Ok t
       ∧ ∀ col j, lastIndex col ["a"; "b"; "c"] = Some j →
           (∀ v, ["1"; "2"] !! j = Some v →
              t !! col = Some (column j [] ++ v :: column j []))
           ∧ ((length ["1"; "2"] ≤ j)%nat →
              t !! col = Some (column j [] ++ column j [])).
Proof.
  apply (C1_short_row_rejected_loop_truncates
           (text ["a,b,c"; "1,2"]) ["a"; "b"; "c"] [] ["1"; "2"] []).
  - reflexivity.
  - simpl. lia.
Defined.

(** C6: for a text that the reader accepts with header [header] and data
    rows [rows], [CsvToSlice] returns a table whose keys are exactly the
    names of the header; the entry of a name holds one value for each data
    row that has the index of the column (here every row, the rows being
    as long as the header), and each value is the field of the row as the
    reader gave it. *)
Theorem C6_CsvToSlice_rectangular data header rows :
  csv.ReadAll (csv.NewReader data) = inr (header :: rows) →
  ∃ t, CsvToSlice data = Ok t
     ∧ dom t = list_to_set header
     ∧ ∀ col, col ∈ header →
         ∃ j, header !! j = Some col
            ∧ t !! col = Some (column j rows)
            ∧ length (column j rows)
              = length (filter (λ r : list string, j < length r) rows)
            ∧ Forall2 (λ v r, r !! j = Some v) (column j rows) rows.
Proof.
  intros Hread. exists (buildColumns 0 header rows ∅).
  split; [by rewrite (CsvToSlice_records _ _ Hread)|].
  split; [apply buildColumns_dom|].
  intros col Hin. destruct (lastIndex_elem _ _ Hin) as [j Hl].
  exists j. destruct (lastIndex_Some _ _ _ Hl) as [Hj _].
  split; [done|]. split; [by apply tableOfRecords_lookup|].
  split; [apply column_length|].
  eapply column_full; [|by apply ReadAll_rectangular in Hread].
  by apply lookup_lt_Some in Hj.
Qed.

Lemma C6_CsvToSlice_rectangular_witness :
  ∃ t, CsvToSlice (text ["name, age"; "Ann , 31"; " Bob,7"]) = Ok t
     ∧ dom t = list_to_set ["name"; " age"]
     ∧ ∀ col, col ∈ ["name"; " age"] →
         ∃ j, ["name"; " age"] !! j = Some col
            ∧ t !! col = Some (column j [["Ann "; " 31"]; [" Bob"; "7"]])
            ∧ length (column j [["Ann "; " 31"]; [" Bob"; "7"]])
              = length (filter (λ r : list string, j < length r)
                          [["Ann "; " 31"]; [" Bob"; "7"]])
            ∧ Forall2 (λ v r, r !! j = Some v)
                (column j [["Ann "; " 31"]; [" Bob"; "7"]])
                [["Ann "; " 31"]; [" Bob"; "7"]].
Proof.
  apply (C6_CsvToSlice_rectangular
           (text ["name, age"; "Ann , 31"; " Bob,7"])
           ["name"; " age"] [["Ann "; " 31"]; [" Bob"; "7"]]).
  reflexivity.
Defined.

(** A text of records written without quotes, all as long as the header:
    the table holds the fields as they stand in the text, blanks
    included. *)
Lemma CsvToSlice_plain header rows :
  Forall plainRecord (header :: rows) →
  Forall (λ r, length r = length header) rows →
  CsvToSlice (text (join <$> header :: rows))
  = Ok (buildColumns 0 header rows ∅).
Proof.
  intros Hplain Hrect.
  by rewrite (CsvToSlice_records _ _
                (ReadAll_plain_rectangular _ _ Hplain Hrect)).
Qed.

Example CsvToSlice_keeps_blanks :
  CsvToSlice (text ["name, age"; "Ann , 31"; " Bob,7"])
  = Ok (<["name" := ["Ann "; " Bob"]]> (<[" age" := [" 31"; "7"]]> ∅)).
Proof. vm_compute. reflexivity. Qed.

(** C7: a text in which the reader finds no record at all makes
    [CsvToSlice] fail with the error [no data found]. *)
Theorem C7_CsvToSlice_no_rows data :
  csv.ReadAll (csv.NewReader data) = inr [] →
  CsvToSlice data = Err (errors_New "no data found").
Proof. intros Hread. by rewrite (CsvToSlice_records _ _ Hread). Qed.

Lemma C7_CsvToSlice_no_rows_witness :
  CsvToSlice (text [""; ""]) = Err (errors_New "no data found").
Proof. apply (C7_CsvToSlice_no_rows (text [""; ""])). reflexivity. Defined.

(** C8, as the claim states it, fails: no enumeration of the keys of the
    table gives the order of the header, since the texts with headers
    [a,b] and [b,a] below are parsed into one and the same table. *)
Lemma C8_no_header_order :
  ¬ ∃ enum : gmap string (list string) → list string,
      ∀ data header rows t,
        csv.ReadAll (csv.NewReader data) = inr (header :: rows) →
        CsvToSlice data = Ok t →
        enum t = header.
Proof.
  intros [enum Henum].
  pose proof (Henum (text ["a,b"; "1,2"]) ["a"; "b"] [["1"; "2"]]
                    (buildColumns 0 ["a"; "b"] [["1"; "2"]] ∅)
                    eq_refl eq_refl) as H1.
  pose proof (Henum (text ["b,a"; "2,1"]) ["b"; "a"] [["2"; "1"]]
                    (buildColumns 0 ["b"; "a"] [["2"; "1"]] ∅)
                    eq_refl eq_refl) as H2.
  assert (Heq : buildColumns 0 ["a"; "b"] [["1"; "2"]] ∅
                = buildColumns 0 ["b"; "a"] [["2"; "1"]] ∅)
    by (vm_compute; reflexivity).
  rewrite Heq in H1. rewrite H1 in H2. discriminate.
Qed.

(** C8, amended: for every text parsed with success, the keys of the table
    are pairwise distinct and are exactly the names that occur in the
    header; the table keeps no order of the keys. *)
Theorem C8_CsvToSlice_keys data header rows t :
  csv.ReadAll (csv.NewReader data) = inr (header :: rows) →
  CsvToSlice data = Ok t →
  NoDup (keys t) ∧ ∀ col, col ∈ keys t ↔ col ∈ header.
Proof.
  intros Hread Ht. split; [apply NoDup_fst_map_to_list|].
  rewrite (CsvToSlice_records _ _ Hread) in Ht. injection Ht as <-.
  intros col. unfold keys.
  rewrite <- (elem_of_list_to_set (C := gset string) col header).
  rewrite <- (buildColumns_dom header 0 rows).
  rewrite elem_of_dom. split.
  - intros [[k v] [-> Hkv]]%list_elem_of_fmap.
    apply elem_of_map_to_list in Hkv. by eexists.
  - intros [v Hv]. apply list_elem_of_fmap. exists (col, v).
    split; [done|]. by apply elem_of_map_to_list.
Qed.

Lemma C8_CsvToSlice_keys_witness :
  NoDup (keys (buildColumns 0 ["b"; "a"; "b"] [["2"; "1"; "3"]] ∅))
  ∧ ∀ col, col ∈ keys (buildColumns 0 ["b"; "a"; "b"] [["2"; "1"; "3"]] ∅)
           ↔ col ∈ ["b"; "a"; "b"].
Proof.
  apply (C8_CsvToSlice_keys (text ["b,a,b"; "2,1,3"])
           ["b"; "a"; "b"] [["2"; "1"; "3"]]); reflexivity.
Defined.

(** C10: when a name stands at two or more positions of the header, the
    table has one entry for the name, and the entry holds the values that
    the rows have at the highest of these positions. *)
Theorem C10_CsvToSlice_duplicate_column data header rows col i j :
  csv.ReadAll (csv.NewReader data) = inr (header :: rows) →
  header !! i = Some col → header !! j = Some col → i < j →
  ∃ t k, CsvToSlice data = Ok t
       ∧ header !! k = Some col
       ∧ (∀ k', header !! k' = Some col → (k' ≤ k)%nat)
       ∧ filter (λ kv : string * list string, kv.1 = col) (map_to_list t)
         = [(col, column k rows)]
       ∧ Forall2 (λ v r, r !! k = Some v) (column k rows) rows.
Proof.
  intros Hread Hi Hj Hij.
  assert (Hin : col ∈ header) by (by eapply list_elem_of_lookup_2).
  destruct (lastIndex_elem _ _ Hin) as [k Hl].
  destruct (lastIndex_Some _ _ _ Hl) as [Hk Hmax].
  exists (buildColumns 0 header rows ∅), k.
  split; [by rewrite (CsvToSlice_records _ _ Hread)|].
  split; [done|]. split.
  - intros k' Hk'. destruct (decide (k' ≤ k)%nat); [done|].
    exfalso. apply (Hmax k'); [lia|done].
  - split.
    + apply map_to_list_entry. by apply tableOfRecords_lookup.
    + eapply column_full; [|by apply ReadAll_rectangular in Hread].
      by apply lookup_lt_Some in Hk.
Qed.

Lemma C10_CsvToSlice_duplicate_column_witness :
  ∃ t k, CsvToSlice (text ["x,y,x"; "1,2,3"; "4,5,6"]) = Ok t
       ∧ ["x"; "y"; "x"] !! k = Some "x"
       ∧ (∀ k', ["x"; "y"; "x"] !! k' = Some "x" → (k' ≤ k)%nat)
       ∧ filter (λ kv : string * list string, kv.1 = "x") (map_to_list t)
         = [("x", column k [["1"; "2"; "3"]; ["4"; "5"; "6"]])]
       ∧ Forall2 (λ v r, r !! k = Some v)
           (column k [["1"; "2"; "3"]; ["4"; "5"; "6"]])
           [["1"; "2"; "3"]; ["4"; "5"; "6"]].
Proof.
  apply (C10_CsvToSlice_duplicate_column
           (text ["x,y,x"; "1,2,3"; "4,5,6"])
           ["x"; "y"; "x"] [["1"; "2"; "3"]; ["4"; "5"; "6"]] "x" 0 2).
  - reflexivity.
  - reflexivity.
  - reflexivity.
  - lia.
Defined.

(** ** [ConnectAIModel] *)

Section ConnectAIModel.
Context `{codec : JSON}.

Lemma buildRequest_Ok payload token data :
  json_Marshal payload = Ok data →
  buildRequest payload token = Ok (requestFor data token).
Proof. unfold buildRequest. by intros ->. Qed.

Lemma loadingEstimate_loading resp est :
  isLoading resp est → loadingEstimate resp = (Some est, EmptyString).
Proof.
  intros [Hcode (result & Hjson & Hest)]. unfold loadingEstimate.
  rewrite Hcode. simpl. by rewrite Hjson, Hest.
Qed.

Lemma loadingEstimate_noEstimate resp :
  http.StatusCode resp = http.StatusServiceUnavailable →
  noEstimate resp → loadingEstimate resp = (None, EmptyString).
Proof.
  intros Hcode Hno. unfold loadingEstimate. rewrite Hcode. simpl.
  destruct (json_Unmarshal (http.Body resp)) as [result|] eqn:Hjson;
    [|done].
  specialize (Hno result Hjson).
  destruct (result !! "estimated_time") as [[]|]; try done.
  by destruct (Hno f).
Qed.

Lemma loadingEstimate_other resp :
  http.StatusCode resp ≠ http.StatusServiceUnavailable →
  loadingEstimate resp = (None, http.Body resp).
Proof.
  intros Hcode. unfold loadingEstimate.
  destruct (Z.eqb_spec (http.StatusCode resp) http.StatusServiceUnavailable);
    done.
Qed.

Lemma attempt_transport_error c req i err :
  Client c i req = Err err →
  attempt c req i = (Return (Err err), [EvDo req]).
Proof. unfold attempt. by intros ->. Qed.

Lemma attempt_ok c req i resp aiResponse :
  Client c i req = Ok resp →
  http.StatusCode resp = http.StatusOK →
  json_Decode (http.Body resp) = Ok aiResponse →
  attempt c req i = (Return (Ok aiResponse), [EvDo req]).
Proof. unfold attempt. intros -> -> Hd. simpl. by rewrite Hd. Qed.

Lemma attempt_loading c req i resp est :
  Client c i req = Ok resp → isLoading resp est →
  attempt c req i = (Continue, loadingEvents req est).
Proof.
  unfold attempt. intros -> Hload.
  rewrite (loadingEstimate_loading _ _ Hload).
  destruct Hload as [-> _]. done.
Qed.

(** Any status but 200 and 503: the error has the status line and the
    body as the service sent it. *)
Lemma attempt_other_status c req i resp :
  Client c i req = Ok resp →
  http.StatusCode resp ≠ http.StatusOK →
  http.StatusCode resp ≠ http.StatusServiceUnavailable →
  attempt c req i =
    (Return (Err (fmt_Errorf_status (http.Status resp) (http.Body resp))),
     [EvDo req]).
Proof.
  unfold attempt. intros -> H200 H503.
  destruct (Z.eqb_spec (http.StatusCode resp) http.StatusOK); [done|].
  by rewrite (loadingEstimate_other _ H503).
Qed.

(** A 503 without an estimate: the branch of the 503 has read the body
    to its end, and the error has the status line and no body. *)
Lemma attempt_503_no_estimate c req i resp :
  Client c i req = Ok resp →
  http.StatusCode resp = http.StatusServiceUnavailable →
  noEstimate resp →
  attempt c req i =
    (Return (Err (fmt_Errorf_status (http.Status resp) EmptyString)),
     [EvDo req]).
Proof.
  unfold attempt. intros -> H503 Hno.
  rewrite (loadingEstimate_noEstimate _ H503 Hno).
  by rewrite H503.
Qed.

(** [k] attempts answered by a loading 503 use up [k] indices of the
    loop. *)
Lemma retryLoop_loading c req ests : ∀ k n i,
  (∀ j, j < k → ∃ resp,
      Client c (i + j) req = Ok resp ∧ isLoading resp (ests (i + j))) →
  retryLoop c req (k + n) i =
    (let (r, evs) := retryLoop c req n (i + k) in
     (r, flat_map (λ j, loadingEvents req (ests j)) (seq i k) ++ evs)).
Proof.
  induction k as [|k IH]; intros n i Hload.
  - rewrite Nat.add_0_r. simpl. by destruct (retryLoop c req n i).
  - destruct (Hload 0 ltac:(lia)) as (resp & Hdo & Hl).
    rewrite Nat.add_0_r in Hdo, Hl.
    cbn [Nat.add retryLoop]. rewrite (attempt_loading _ _ _ _ _ Hdo Hl).
    rewrite IH.
    + replace (S i + k) with (i + S k) by lia.
      destruct (retryLoop c req n (i + S k)) as [r evs].
      cbn [seq flat_map]. by rewrite <- app_assoc.
    + intros j Hj. destruct (Hload (S j) ltac:(lia)) as (resp' & Hdo' & Hl').
      replace (S i + j) with (i + S j) by lia. eauto.
Qed.

Lemma requests_app evs1 evs2 :
  requests (evs1 ++ evs2) = requests evs1 + requests evs2.
Proof. unfold requests. by rewrite List.filter_app, length_app. Qed.

Lemma requests_loading req ests : ∀ k i,
  requests (flat_map (λ j, loadingEvents req (ests j)) (seq i k)) = k.
Proof.
  induction k as [|k IH]; intros i; [done|].
  cbn [seq flat_map]. rewrite requests_app, IH. done.
Qed.

End ConnectAIModel.

Section Attempts.
Context `{codec : JSON}.

(** C2, at the input where the code departs from it: when the first
    answer is a 503 whose body gives no float64 [estimated_time],
    [ConnectAIModel] fails at once and sends nothing more, but its error
    has the status line only: the body was read to its end while looking
    for the estimate, and the text after [response:] is empty. *)
Theorem C2_503_without_estimate_loses_body c payload token data resp :
  json_Marshal payload = Ok data →
  Client c 0 (requestFor data token) = Ok resp →
  http.StatusCode resp = http.StatusServiceUnavailable →
  noEstimate resp →
  ConnectAIModel c payload token =
    (Err (fmt_Errorf_status (http.Status resp) EmptyString),
     [EvDo (requestFor data token)]).
Proof.
  intros Hm Hdo H503 Hno. unfold ConnectAIModel.
  rewrite (buildRequest_Ok _ _ _ Hm). unfold maxRetries.
  cbn [retryLoop]. by rewrite (attempt_503_no_estimate _ _ _ _ Hdo H503 Hno).
Qed.

(** The part of C2 that holds: a first answer with a status other than
    200 and 503 makes [ConnectAIModel] fail at once with the status line
    and the body as sent. *)
Lemma ConnectAIModel_other_status c payload token data resp :
  json_Marshal payload = Ok data →
  Client c 0 (requestFor data token) = Ok resp →
  http.StatusCode resp ≠ http.StatusOK →
  http.StatusCode resp ≠ http.StatusServiceUnavailable →
  ConnectAIModel c payload token =
    (Err (fmt_Errorf_status (http.Status resp) (http.Body resp)),
     [EvDo (requestFor data token)]).
Proof.
  intros Hm Hdo H200 H503. unfold ConnectAIModel.
  rewrite (buildRequest_Ok _ _ _ Hm). unfold maxRetries.
  cbn [retryLoop]. by rewrite (attempt_other_status _ _ _ _ Hdo H200 H503).
Qed.

(** C3: when each of the ten attempts is answered by a 503 whose body has
    [estimated_time] 0.0, [ConnectAIModel] sends ten requests, sleeps for
    no time after each, and fails with the error of the exhausted
    retries. *)
Theorem C3_always_loading_exhausts_retries c payload token data :
  json_Marshal payload = Ok data →
  (∀ i, i < maxRetries → ∃ resp,
      Client c i (requestFor data token) = Ok resp
      ∧ isLoading resp 0%float) →
  ConnectAIModel c payload token =
    (Err errMaxRetries,
     concat (replicate 10 [EvDo (requestFor data token); EvLog 0%float;
                           EvSleep 0]))
  ∧ requests (snd (ConnectAIModel c payload token)) = 10.
Proof.
  intros Hm Hload.
  assert (Hrun : ConnectAIModel c payload token =
    (Err errMaxRetries,
     concat (replicate 10 [EvDo (requestFor data token); EvLog 0%float;
                           EvSleep 0]))).
  { unfold ConnectAIModel. rewrite (buildRequest_Ok _ _ _ Hm).
    change maxRetries with (10 + 0).
    rewrite (retryLoop_loading c _ (λ _, 0%float) 10 0 0); [reflexivity|].
    intros j Hj. apply Hload. exact Hj. }
  split; [exact Hrun|]. rewrite Hrun. reflexivity.
Qed.

(** C4: when the first attempt is answered by a 503 whose body has
    [estimated_time] 0.0 and the second by a 200 whose body decodes,
    [ConnectAIModel] returns the decoded answer after two requests and one
    sleep of no time between them. *)
Theorem C4_loading_once_then_answer c payload token data resp0 resp1 ai :
  json_Marshal payload = Ok data →
  Client c 0 (requestFor data token) = Ok resp0 →
  isLoading resp0 0%float →
  Client c 1 (requestFor data token) = Ok resp1 →
  http.StatusCode resp1 = http.StatusOK →
  json_Decode (http.Body resp1) = Ok ai →
  ConnectAIModel c payload token =
    (Ok ai,
     [EvDo (requestFor data token); EvLog 0%float; EvSleep 0;
      EvDo (requestFor data token)])
  ∧ requests (snd (ConnectAIModel c payload token)) = 2.
Proof.
  intros Hm Hdo0 Hl0 Hdo1 H200 Hdec.
  assert (Hrun : ConnectAIModel c payload token =
    (Ok ai,
     [EvDo (requestFor data token); EvLog 0%float; EvSleep 0;
      EvDo (requestFor data token)])).
  { unfold ConnectAIModel. rewrite (buildRequest_Ok _ _ _ Hm).
    unfold maxRetries. cbn [retryLoop].
    rewrite (attempt_loading _ _ _ _ _ Hdo0 Hl0).
    by rewrite (attempt_ok _ _ _ _ _ Hdo1 H200 Hdec). }
  split; [exact Hrun|]. rewrite Hrun. reflexivity.
Qed.

(** C5: when the transport fails at the attempt of index [k], the earlier
    attempts having been answered by loading 503s, [ConnectAIModel]
    returns the error of the transport as it is, and the failed request is
    the last thing it does: [k + 1] requests are sent in all. *)
Theorem C5_transport_failure_not_retried c payload token data ests k err :
  json_Marshal payload = Ok data →
  k < maxRetries →
  (∀ i, i < k → ∃ resp,
      Client c i (requestFor data token) = Ok resp
      ∧ isLoading resp (ests i)) →
  Client c k (requestFor data token) = Err err →
  ∃ evs, ConnectAIModel c payload token
           = (Err err, evs ++ [EvDo (requestFor data token)])
       ∧ requests evs = k
       ∧ requests (snd (ConnectAIModel c payload token)) = k + 1.
Proof.
  intros Hm Hk Hload Hfail.
  exists (flat_map (λ j, loadingEvents (requestFor data token) (ests j))
            (seq 0 k)).
  assert (Hrun : ConnectAIModel c payload token =
    (Err err,
     flat_map (λ j, loadingEvents (requestFor data token) (ests j)) (seq 0 k)
     ++ [EvDo (requestFor data token)])).
  { unfold ConnectAIModel. rewrite (buildRequest_Ok _ _ _ Hm).
    replace maxRetries with (k + S (maxRetries - S k)) by lia.
    rewrite (retryLoop_loading c _ ests k _ 0); [|exact Hload].
    cbn [Nat.add retryLoop].
    by rewrite (attempt_transport_error _ _ _ _ Hfail). }
  split; [exact Hrun|]. split; [apply requests_loading|].
  rewrite Hrun. cbn [snd]. rewrite requests_app, requests_loading. done.
Qed.

(** C9: when the posted form has no text for [query], the handler renders
    the page with status 400 and the message that the query cannot be
    empty, and does nothing else: no request is sent, whatever the
    connector is. *)
Theorem C9_empty_query_is_rejected table token connector c :
  gin.PostForm c "query" = EmptyString →
  queryHandler table token connector c =
    (gin.mkHTML http.StatusBadRequest "index.html"
       {[ "error" := gin.VString "Query cannot be empty" ]}, [])
  ∧ requests (snd (queryHandler table token connector c)) = 0.
Proof.
  intros Hq. unfold queryHandler. rewrite Hq.
  rewrite decide_True by done. done.
Qed.

End Attempts.

Lemma isLoading_loading503 : @isLoading exampleJSON loading503 0%float.
Proof.
  split; [reflexivity|].
  exists {[ "estimated_time" := Float64 0%float ]}. split; reflexivity.
Qed.

Lemma noEstimate_overloaded503 : @noEstimate exampleJSON overloaded503.
Proof.
  intros result Hjson est. vm_compute in Hjson. injection Hjson as <-.
  vm_compute. discriminate.
Qed.

Lemma C2_503_without_estimate_loses_body_witness :
  @ConnectAIModel exampleJSON overloaded samplePayload "secret" =
    (Err (ErrorString
       "failed to connect to AI model, status: 503 Service Unavailable, response: "),
     [EvDo (requestFor "{}" "secret")]).
Proof.
  apply (@C2_503_without_estimate_loses_body exampleJSON overloaded
           samplePayload "secret" "{}" overloaded503).
  - reflexivity.
  - reflexivity.
  - reflexivity.
  - exact noEstimate_overloaded503.
Defined.

(** The error that C2 asks for at this input carries the body, and is not
    the error returned. *)
Example C2_error_with_body_differs :
  fmt_Errorf_status (http.Status overloaded503) (http.Body overloaded503)
  ≠ fmt_Errorf_status (http.Status overloaded503) EmptyString.
Proof. vm_compute. discriminate. Qed.

Example ConnectAIModel_404 :
  @ConnectAIModel exampleJSON {| Client := λ _ _, Ok notFound404 |}
     samplePayload "secret" =
    (Err (ErrorString
       "failed to connect to AI model, status: 404 Not Found, response: Not Found"),
     [EvDo (requestFor "{}" "secret")]).
Proof.
  apply (@ConnectAIModel_other_status exampleJSON _ samplePayload "secret"
           "{}" notFound404); [reflexivity|reflexivity|done|done].
Qed.

Lemma C3_always_loading_exhausts_retries_witness :
  @ConnectAIModel exampleJSON alwaysLoading samplePayload "secret" =
    (Err errMaxRetries,
     concat (replicate 10 [EvDo (requestFor "{}" "secret"); EvLog 0%float;
                           EvSleep 0]))
  ∧ requests (snd (@ConnectAIModel exampleJSON alwaysLoading samplePayload
                     "secret")) = 10.
Proof.
  apply (@C3_always_loading_exhausts_retries exampleJSON alwaysLoading
           samplePayload "secret" "{}").
  - reflexivity.
  - intros i _. exists loading503. split; [reflexivity|].
    exact isLoading_loading503.
Defined.

Lemma C4_loading_once_then_answer_witness :
  @ConnectAIModel exampleJSON loadingOnce samplePayload "secret" =
    (Ok sampleAnswer,
     [EvDo (requestFor "{}" "secret"); EvLog 0%float; EvSleep 0;
      EvDo (requestFor "{}" "secret")])
  ∧ requests (snd (@ConnectAIModel exampleJSON loadingOnce samplePayload
                     "secret")) = 2.
Proof.
  apply (@C4_loading_once_then_answer exampleJSON loadingOnce
           samplePayload "secret" "{}" loading503 answer200 sampleAnswer).
  - reflexivity.
  - reflexivity.
  - exact isLoading_loading503.
  - reflexivity.
  - reflexivity.
  - reflexivity.
Defined.

Lemma C5_transport_failure_not_retried_witness :
  ∃ evs, @ConnectAIModel exampleJSON brokenAtThird samplePayload "secret"
           = (Err (TransportError "connection refused"),
              evs ++ [EvDo (requestFor "{}" "secret")])
       ∧ requests evs = 2
       ∧ requests (snd (@ConnectAIModel exampleJSON brokenAtThird
                          samplePayload "secret")) = 2 + 1.
Proof.
  apply (@C5_transport_failure_not_retried exampleJSON brokenAtThird
           samplePayload "secret" "{}" (λ _, 0%float) 2
           (TransportError "connection refused")).
  - reflexivity.
  - unfold maxRetries. lia.
  - intros i Hi. exists loading503. split.
    + destruct i as [|[|i]]; [reflexivity|reflexivity|lia].
    + exact isLoading_loading503.
  - reflexivity.
Defined.

Lemma C9_empty_query_is_rejected_witness :
  @queryHandler exampleJSON {[ "a" := ["1"] ]} "secret" loadingOnce
     {| gin.Form := {[ "query" := [""] ]} |} =
    (gin.mkHTML http.StatusBadRequest "index.html"
       {[ "error" := gin.VString "Query cannot be empty" ]}, [])
  ∧ requests (snd (@queryHandler exampleJSON {[ "a" := ["1"] ]} "secret"
                     loadingOnce {| gin.Form := {[ "query" := [""] ]} |}))
    = 0.
Proof.
  apply (@C9_empty_query_is_rejected exampleJSON {[ "a" := ["1"] ]} "secret"
           loadingOnce {| gin.Form := {[ "query" := [""] ]} |}).
  reflexivity.
Defined.

(** * Further properties *)

(** ** What [CsvToSlice] returns *)

Lemma readRecords_header_length lines : ∀ fpr pend header rows,
  csv.readRecords fpr pend lines = inr (header :: rows) →
  0 < length header.
Proof.
  induction lines as [|line lines IH]; intros fpr pend header rows Hr;
    cbn [csv.readRecords] in Hr.
  - destruct pend; discriminate.
  - destruct (csv.lineStep pend line) as [[fields|fields cur|e]|] eqn:Hs;
      [|by eauto|discriminate|by eauto].
    destruct (csv.checkFieldCount fpr fields) as [fpr'|]; [|discriminate].
    destruct (csv.readRecords fpr' None lines); [discriminate|].
    injection Hr as <- <-. by eapply lineStep_Done_length.
Qed.

Lemma CsvToSlice_Ok_inv data t :
  CsvToSlice data = Ok t →
  ∃ header rows,
    csv.ReadAll (csv.NewReader data) = inr (header :: rows)
    ∧ t = buildColumns 0 header rows ∅.
Proof.
  unfold CsvToSlice.
  destruct (csv.ReadAll (csv.NewReader data)) as [e|[|header rows]];
    [discriminate|discriminate|].
  intros [= <-]. by exists header, rows.
Qed.

(** What the reader without the check of the field count returns decides
    what [CsvToSlice] returns. *)
Lemma CsvToSlice_unchecked data records :
  csv.ReadAll (csv.mkReader (-1) data) = inr records →
  CsvToSlice data =
    match records with
    | [] => Err errNoData
    | header :: rows =>
        if decide (Forall (λ r : list string, length r = length header) rows)
        then Ok (buildColumns 0 header rows ∅)
        else Err (ParseError ErrFieldCount)
    end.
Proof.
  unfold CsvToSlice, csv.ReadAll.
  cbn [csv.src csv.FieldsPerRecord csv.NewReader]. intros Hread.
  destruct records as [|header rows].
  - apply readRecords_nil_iff in Hread.
    apply (readRecords_nil_iff _ 0%Z) in Hread. by rewrite Hread.
  - rewrite (readRecords_unchecked_zero _ _ _ _ Hread).
    by destruct (decide (Forall _ rows)).
Qed.

(** X1: in a table that [CsvToSlice] returns, every column has one value
    for each record after the header: all columns are as long as the
    number of records read less one. *)
Theorem X1_columns_as_long_as_the_rows data t :
  CsvToSlice data = Ok t →
  ∃ records,
    csv.ReadAll (csv.NewReader data) = inr records
    ∧ ∀ col vs, t !! col = Some vs → length vs = length records - 1.
Proof.
  intros (header & rows & Hread & ->)%CsvToSlice_Ok_inv.
  exists (header :: rows). split; [done|].
  intros col vs. rewrite buildColumns_lookup.
  destruct (lastIndex col header) as [j|] eqn:Hl; [|by rewrite lookup_empty].
  intros [= <-]. apply lastIndex_Some in Hl as [Hj _].
  apply lookup_lt_Some in Hj.
  rewrite (Forall2_length _ _ _
             (column_full j rows _ Hj (ReadAll_rectangular _ _ _ Hread))).
  simpl. lia.
Qed.

Lemma X1_columns_as_long_as_the_rows_witness :
  ∃ records,
    csv.ReadAll (csv.NewReader (text ["x,y"; "1,2"; "3,4"; "5,6"]))
      = inr records
    ∧ ∀ col vs,
        buildColumns 0 ["x"; "y"] [["1"; "2"]; ["3"; "4"]; ["5"; "6"]] ∅
          !! col = Some vs →
        length vs = length records - 1.
Proof.
  apply (X1_columns_as_long_as_the_rows
           (text ["x,y"; "1,2"; "3,4"; "5,6"])).
  reflexivity.
Defined.

(** X2: [CsvToSlice] never returns a table without a column: the header
    of a text that is read has at least one field. *)
Theorem X2_table_has_a_column data t :
  CsvToSlice data = Ok t → ∃ col vs, t !! col = Some vs.
Proof.
  intros (header & rows & Hread & ->)%CsvToSlice_Ok_inv.
  apply readRecords_header_length in Hread.
  destruct header as [|h header]; [simpl in Hread; lia|].
  destruct (lastIndex_elem h (h :: header)) as [j Hl]; [by left|].
  exists h, (column j rows). by apply tableOfRecords_lookup.
Qed.

Lemma X2_table_has_a_column_witness :
  ∃ col vs, buildColumns 0 ["a"; "b"] [] ∅ !! col = Some vs.
Proof.
  apply (X2_table_has_a_column "a,b" (buildColumns 0 ["a"; "b"] [] ∅)).
  reflexivity.
Defined.

(** X3: [CsvToSlice] fails in two ways only: with the error of the reader,
    as the reader returned it, or with [no data found], and the latter
    only for a text whose lines are all blank. *)
Theorem X3_CsvToSlice_errors data err :
  CsvToSlice data = Err err →
  (∃ e, err = ParseError e ∧ csv.ReadAll (csv.NewReader data) = inl e)
  ∨ (err = errNoData
     ∧ Forall (λ line, csv.blank line = true) (csv.readLines data)).
Proof.
  unfold CsvToSlice.
  destruct (csv.ReadAll (csv.NewReader data)) as [e|[|header rows]] eqn:Hread.
  - intros [= <-]. left. by exists e.
  - intros [= <-]. right. split; [done|]. by apply ReadAll_nil_iff.
  - discriminate.
Qed.

Lemma X3_CsvToSlice_errors_witness :
  (∃ e, ParseError ErrBareQuote = ParseError e
        ∧ csv.ReadAll (csv.NewReader
                         ("a,b" +:+ String csv.Quote EmptyString)) = inl e)
  ∨ (ParseError ErrBareQuote = errNoData
     ∧ Forall (λ line, csv.blank line = true)
         (csv.readLines ("a,b" +:+ String csv.Quote EmptyString))).
Proof.
  apply (X3_CsvToSlice_errors ("a,b" +:+ String csv.Quote EmptyString)
           (ParseError ErrBareQuote)).
  reflexivity.
Defined.

(** X4: a text with a header and no record after it gives a table with
    every name of the header as a key, each with an empty list of
    values. *)
Theorem X4_header_only data header :
  csv.ReadAll (csv.NewReader data) = inr [header] →
  ∃ t, CsvToSlice data = Ok t
     ∧ dom t = list_to_set header
     ∧ ∀ col, col ∈ header → t !! col = Some [].
Proof.
  intros Hread. exists (buildColumns 0 header [] ∅).
  split; [by rewrite (CsvToSlice_records _ _ Hread)|].
  split; [apply buildColumns_dom|].
  intros col [j Hl]%lastIndex_elem.
  by rewrite (tableOfRecords_lookup _ _ _ _ Hl).
Qed.

Lemma X4_header_only_witness :
  ∃ t, CsvToSlice (text ["name,age"]) = Ok t
     ∧ dom t = list_to_set ["name"; "age"]
     ∧ ∀ col, col ∈ ["name"; "age"] → t !! col = Some [].
Proof.
  apply (X4_header_only (text ["name,age"]) ["name"; "age"]).
  reflexivity.
Defined.

(** X5: let the reader without the check of the field count find the
    header and the rows of a text.  When every row has as many fields as
    the header, [CsvToSlice] returns the table built from them; when some
    row has fewer or more, it returns the reader's field-count error. *)
Theorem X5_field_counts_decide data header rows :
  csv.ReadAll (csv.mkReader (-1) data) = inr (header :: rows) →
  (Forall (λ r : list string, length r = length header) rows →
   CsvToSlice data = Ok (buildColumns 0 header rows ∅))
  ∧ (∀ row, row ∈ rows → length row ≠ length header →
     CsvToSlice data = Err (ParseError ErrFieldCount)).
Proof.
  intros Hread. rewrite (CsvToSlice_unchecked _ _ Hread). split.
  - intros Hall. by rewrite decide_True.
  - intros row Hin Hlen. rewrite decide_False; [done|].
    intros Hall. by apply (proj1 (Forall_forall _ _) Hall row) in Hin.
Qed.

Lemma X5_field_counts_decide_witness :
  (Forall (λ r : list string, length r = length ["a"; "b"])
     [["1"; "2"]; ["3"; "4"; "5"]] →
   CsvToSlice (text ["a,b"; "1,2"; "3,4,5"])
   = Ok (buildColumns 0 ["a"; "b"] [["1"; "2"]; ["3"; "4"; "5"]] ∅))
  ∧ (∀ row, row ∈ [["1"; "2"]; ["3"; "4"; "5"]] →
     length row ≠ length ["a"; "b"] →
     CsvToSlice (text ["a,b"; "1,2"; "3,4,5"])
     = Err (ParseError ErrFieldCount)).
Proof.
  apply (X5_field_counts_decide (text ["a,b"; "1,2"; "3,4,5"])
           ["a"; "b"] [["1"; "2"]; ["3"; "4"; "5"]]).
  reflexivity.
Defined.

(** ** How the text may be written *)

(** The columns of a table built from rows as long as the header. *)
Lemma table_columns header rows :
  Forall (λ r : list string, length r = length header) rows →
  ∀ col, col ∈ header →
    ∃ j vs, header !! j = Some col
          ∧ buildColumns 0 header rows ∅ !! col = Some vs
          ∧ Forall2 (λ v r, r !! j = Some v) vs rows.
Proof.
  intros Hrect col [j Hl]%lastIndex_elem.
  exists j, (column j rows). destruct (lastIndex_Some _ _ _ Hl) as [Hj _].
  split; [done|]. split; [by apply tableOfRecords_lookup|].
  eapply column_full; [|exact Hrect]. by apply lookup_lt_Some in Hj.
Qed.


Lemma plainRecord_intro fields :
  fields ≠ [] →
  forallb (allBytes plainByte) fields = true →
  join fields ≠ EmptyString →
  plainRecord fields.
Proof.
  intros Hne Hall Hj. split; [done|]. split; [|done].
  apply Forall_forall. intros f Hf.
  apply (proj1 (forallb_forall _ _) Hall). by apply list_elem_of_In.
Qed.


Lemma readLinesFrom_to_newline line : ∀ cur rest,
  allBytes (λ c, negb (Ascii.eqb c csv.NL)) line = true →
  csv.readLinesFrom cur (line +:+ String csv.NL rest) =
    csv.normalizeCRLF (cur +:+ line +:+ String csv.NL EmptyString)
    :: csv.readLinesFrom EmptyString rest.
Proof.
  induction line as [|c line IH]; intros cur rest Hline.
  - done.
  - cbn [allBytes] in Hline. apply andb_true_iff in Hline as [Hc Hline].
    rewrite append_String. cbn [csv.readLinesFrom].
    apply negb_true_iff in Hc.
    rewrite Hc, IH by done. by rewrite append_assoc, append_String.
Qed.

(** [readLine] takes the carriage return out of a line ended by a
    carriage return and a newline. *)
Lemma normalizeCRLF_CRLF s :
  csv.normalizeCRLF (s +:+ String csv.CR (String csv.NL EmptyString))
  = s +:+ String csv.NL EmptyString.
Proof.
  induction s as [|c s IH]; [done|].
  rewrite !append_String.
  destruct s as [|a s]; [done|].
  rewrite !append_String in *.
  cbn [csv.normalizeCRLF] in *.
  destruct (s +:+ String csv.CR (String csv.NL EmptyString)) eqn:Hs.
  - by destruct s.
  - by rewrite IH.
Qed.

Lemma lineByte_not_NL line :
  allBytes lineByte line = true →
  allBytes (λ c, negb (Ascii.eqb c csv.NL))
    (line +:+ String csv.CR EmptyString) = true.
Proof.
  intros Hline. rewrite allBytes_append. apply andb_true_iff. split; [|done].
  induction line as [|c line IH]; [done|]. cbn [allBytes] in *.
  apply andb_true_iff in Hline as [Hc Hline].
  apply andb_true_iff. split; [|by apply IH].
  unfold lineByte in Hc. by destruct (Ascii.eqb c csv.NL).
Qed.

Lemma textCRLF_cons line lines :
  textCRLF (line :: lines)
  = (line +:+ String csv.CR EmptyString) +:+ String csv.NL (textCRLF lines).
Proof. by rewrite append_assoc. Qed.

Lemma readLines_textCRLF lines :
  Forall (λ line, allBytes lineByte line = true) lines →
  csv.readLines (textCRLF lines)
  = (λ line, line +:+ String csv.NL EmptyString) <$> lines.
Proof.
  unfold csv.readLines.
  induction 1 as [|line lines Hline _ IH]; [done|].
  rewrite textCRLF_cons.
  rewrite readLinesFrom_to_newline by by apply lineByte_not_NL.
  rewrite fmap_cons. f_equal; [|exact IH].
  change (EmptyString +:+ ?x) with x.
  rewrite append_assoc. cbn [String.append]. apply normalizeCRLF_CRLF.
Qed.

(** X7: a text whose lines end in a carriage return and a newline gives
    what the same lines ended by a newline give, table or error, the lines
    having no line break inside. *)
Theorem X7_CRLF_as_LF lines :
  Forall (λ line, allBytes lineByte line = true) lines →
  CsvToSlice (textCRLF lines) = CsvToSlice (text lines).
Proof.
  intros Hlines. unfold CsvToSlice, csv.ReadAll.
  cbn [csv.src csv.FieldsPerRecord csv.NewReader].
  by rewrite readLines_textCRLF, readLines_text.
Qed.

Lemma X7_CRLF_as_LF_witness :
  CsvToSlice (textCRLF ["a,b"; "1,2"]) = CsvToSlice (text ["a,b"; "1,2"]).
Proof.
  apply (X7_CRLF_as_LF ["a,b"; "1,2"]). repeat constructor.
Defined.

Lemma allBytes_impl (P Q : ascii → bool) s :
  (∀ c, P c = true → Q c = true) →
  allBytes P s = true → allBytes Q s = true.
Proof.
  intros HPQ. induction s as [|c s IH]; [done|]. cbn [allBytes].
  intros [Hc Hs]%andb_true_iff. apply andb_true_iff. auto.
Qed.

Lemma lineByte_spec c :
  lineByte c = true →
  Ascii.eqb c csv.NL = false ∧ Ascii.eqb c csv.CR = false.
Proof.
  unfold lineByte.
  by destruct (Ascii.eqb c csv.NL), (Ascii.eqb c csv.CR).
Qed.

(** A line that is not ended by a newline is read as the line ended by
    one, but inside a quoted field, where the newline is a byte of the
    field. *)
Lemma scan_final_newline line : ∀ m fields cur,
  allBytes lineByte line = true →
  csv.scan m fields cur (line +:+ String csv.NL EmptyString) =
    match csv.scan m fields cur line with
    | csv.Done fs => csv.Done fs
    | csv.Open fs c => csv.Open fs (c +:+ String csv.NL EmptyString)
    | csv.Fail e => csv.Fail e
    end.
Proof.
  induction line as [|a line IH]; intros m fields cur Hline.
  - by destruct m.
  - cbn [allBytes] in Hline. apply andb_true_iff in Hline as [Ha Hline].
    apply lineByte_spec in Ha as [Hnl _].
    rewrite append_String.
    destruct m; cbn [csv.scan]; rewrite ?Hnl; cbn [andb];
      repeat match goal with
             | |- context [if ?b then _ else _] => destruct b
             end;
      try done; by apply IH.
Qed.

Lemma endsNL_lineBytes s : allBytes lineByte s = true → csv.endsNL s = false.
Proof.
  induction s as [|c s IH]; [done|]. cbn [allBytes].
  intros [Hc Hs]%andb_true_iff. apply lineByte_spec in Hc as [Hnl _].
  destruct s as [|c' s]; [done|]. rewrite endsNL_String by done. by apply IH.
Qed.

Lemma blank_lineBytes s :
  allBytes lineByte s = true → s ≠ EmptyString → csv.blank s = false.
Proof.
  intros Hs Hne. unfold csv.blank, csv.lengthNL.
  rewrite endsNL_lineBytes by done. by destruct s.
Qed.

Lemma dropFinalCR_lineBytes s :
  allBytes lineByte s = true → csv.dropFinalCR s = s.
Proof.
  induction s as [|c s IH]; [done|]. cbn [allBytes].
  intros [Hc Hs]%andb_true_iff. apply lineByte_spec in Hc as [_ Hcr].
  destruct s as [|c' s].
  - cbn. by rewrite Hcr.
  - specialize (IH Hs). cbn [csv.dropFinalCR] in *. by rewrite IH.
Qed.

Lemma normalizeCRLF_no_newline s :
  allBytes lineByte s = true → csv.normalizeCRLF s = s.
Proof.
  induction s as [|c s IH]; [done|]. cbn [allBytes].
  intros [Hc Hs]%andb_true_iff. apply lineByte_spec in Hc as [_ Hcr].
  destruct s as [|c' s]; [done|].
  specialize (IH Hs). cbn [csv.normalizeCRLF] in *.
  destruct s as [|c'' s].
  - by rewrite Hcr.
  - by rewrite IH.
Qed.

Lemma readLinesFrom_eof last : ∀ cur,
  allBytes lineByte cur = true → allBytes lineByte last = true →
  cur +:+ last ≠ EmptyString →
  csv.readLinesFrom cur last = [cur +:+ last].
Proof.
  induction last as [|c last IH]; intros cur Hcur Hlast Hne.
  - rewrite append_nil_r in *. cbn [csv.readLinesFrom].
    destruct cur as [|a cur]; [done|].
    by rewrite dropFinalCR_lineBytes, normalizeCRLF_no_newline.
  - cbn [allBytes] in Hlast. apply andb_true_iff in Hlast as [Hc Hlast].
    cbn [csv.readLinesFrom].
    rewrite (proj1 (lineByte_spec _ Hc)).
    rewrite IH.
    + by rewrite append_assoc, append_String.
    + rewrite allBytes_append. cbn [allBytes]. by rewrite Hcur, Hc.
    + done.
    + rewrite append_assoc. by destruct cur.
Qed.

Lemma text_cons_append line lines last :
  text (line :: lines) +:+ last
  = line +:+ String csv.NL (text lines +:+ last).
Proof. cbn [text fold_right]. by rewrite append_assoc, append_String. Qed.

Lemma readLines_text_unended lines last :
  Forall (λ line, allBytes lineByte line = true) lines →
  allBytes lineByte last = true → last ≠ EmptyString →
  csv.readLines (text lines +:+ last)
  = ((λ line, line +:+ String csv.NL EmptyString) <$> lines) ++ [last].
Proof.
  unfold csv.readLines. intros Hlines Hlast Hne.
  induction Hlines as [|line lines Hline _ IH].
  - by apply (readLinesFrom_eof last EmptyString).
  - rewrite text_cons_append, readLinesFrom_line by done.
    rewrite fmap_cons. cbn [app]. f_equal; [|exact IH].
    by apply normalizeCRLF_lineBytes.
Qed.

Lemma readRecords_last_newline lines last : ∀ fpr pend,
  allBytes lineByte last = true → last ≠ EmptyString →
  csv.readRecords fpr pend (lines ++ [last])
  = csv.readRecords fpr pend (lines ++ [last +:+ String csv.NL EmptyString]).
Proof.
  intros fpr pend Hlast Hne. revert fpr pend.
  induction lines as [|line lines IH]; intros fpr pend.
  - cbn [app csv.readRecords].
    assert (Hstep :
      csv.lineStep pend (last +:+ String csv.NL EmptyString) =
        match csv.lineStep pend last with
        | Some (csv.Open fs c) =>
            Some (csv.Open fs (c +:+ String csv.NL EmptyString))
        | r => r
        end).
    { unfold csv.lineStep. destruct pend as [[fields cur]|].
      - rewrite scan_final_newline by done.
        by destruct (csv.scan csv.Quoted fields cur last).
      - rewrite blank_line_false, blank_lineBytes by done.
        rewrite scan_final_newline by done.
        by destruct (csv.scan csv.FieldStart [] EmptyString last). }
    rewrite Hstep.
    by destruct (csv.lineStep pend last) as [[fs|fs c|e]|].
  - cbn [app csv.readRecords].
    destruct (csv.lineStep pend line) as [[fs|fs c|e]|]; try done.
    destruct (csv.checkFieldCount fpr fs) as [fpr'|]; [|done].
    by rewrite IH.
Qed.

(** X8: the newline at the end of the last line may be left out: the text
    without it gives what the text with it gives, table or error.  The
    lines have no line break inside and the last line is not empty. *)
Theorem X8_final_newline_is_optional lines last :
  Forall (λ line, allBytes lineByte line = true) lines →
  allBytes lineByte last = true → last ≠ EmptyString →
  CsvToSlice (text lines +:+ last) = CsvToSlice (text (lines ++ [last])).
Proof.
  intros Hlines Hlast Hne. unfold CsvToSlice, csv.ReadAll.
  cbn [csv.src csv.FieldsPerRecord csv.NewReader].
  rewrite readLines_text_unended by done.
  rewrite readLines_text by (apply Forall_app; split; [done|by constructor]).
  rewrite fmap_app, fmap_cons, fmap_nil.
  by rewrite readRecords_last_newline.
Qed.

Lemma X8_final_newline_is_optional_witness :
  CsvToSlice (text ["a,b"; "1,2"] +:+ "3,4")
  = CsvToSlice (text (["a,b"; "1,2"] ++ ["3,4"])).
Proof.
  apply (X8_final_newline_is_optional ["a,b"; "1,2"] "3,4").
  - repeat constructor.
  - reflexivity.
  - done.
Defined.

Lemma blank_newline : csv.blank (String csv.NL EmptyString) = true.
Proof. reflexivity. Qed.

Lemma readRecords_with_blank_lines l :
  Forall (λ o, from_option plainRecord True o) l →
  csv.readRecords (-1) None
    ((λ line, line +:+ String csv.NL EmptyString) <$> (lineOf <$> l))
  = inr (omap id l).
Proof.
  induction 1 as [|o l Ho _ IH]; [done|].
  rewrite !fmap_cons. cbn [csv.readRecords]. unfold csv.lineStep.
  destruct o as [row|]; cbn [lineOf omap id from_option] in *.
  - destruct Ho as (Hne & Hplain & Hline).
    rewrite blank_line_false by done.
    destruct row as [|f fs]; [done|].
    rewrite scan_join by auto. cbn [app].
    rewrite checkFieldCount_neg by lia. by rewrite IH.
  - change (EmptyString +:+ ?x) with x. by rewrite blank_newline.
Qed.

Lemma lineOf_lineBytes l :
  Forall (λ o, from_option plainRecord True o) l →
  Forall (λ line, allBytes lineByte line = true) (lineOf <$> l).
Proof.
  intros Hl. apply Forall_fmap. eapply Forall_impl; [exact Hl|].
  intros [row|]; [|done]. intros (_ & Hplain & _). by apply join_lineBytes.
Qed.

Lemma omap_id_plain l :
  Forall (λ o, from_option plainRecord True o) l →
  Forall plainRecord (omap id l).
Proof.
  induction 1 as [|[row|] l Ho _ IH]; [constructor| |done].
  by constructor.
Qed.

(** X9: empty lines between the records have no effect: a text of records
    written without quotes, with empty lines anywhere among them, gives
    what the text of the records alone gives. *)
Theorem X9_empty_lines_are_skipped l :
  Forall (λ o, from_option plainRecord True o) l →
  CsvToSlice (text (lineOf <$> l)) = CsvToSlice (text (join <$> omap id l)).
Proof.
  intros Hl.
  rewrite (CsvToSlice_unchecked _ (omap id l)).
  - by rewrite (CsvToSlice_unchecked _ (omap id l))
      by by apply ReadAll_plain, omap_id_plain.
  - unfold csv.ReadAll. cbn [csv.src csv.FieldsPerRecord].
    rewrite readLines_text by by apply lineOf_lineBytes.
    by apply readRecords_with_blank_lines.
Qed.

Lemma X9_empty_lines_are_skipped_witness :
  CsvToSlice (text (lineOf <$> [None; Some ["a"; "b"]; None; None;
                                Some ["1"; "2"]; None]))
  = CsvToSlice (text (join <$> omap id [None; Some ["a"; "b"]; None; None;
                                        Some ["1"; "2"]; None])).
Proof.
  apply (X9_empty_lines_are_skipped
           [None; Some ["a"; "b"]; None; None; Some ["1"; "2"]; None]).
  repeat constructor; apply plainRecord_intro; done.
Defined.

(** ** Fields between quotes *)

Lemma lineByte_Quote : lineByte csv.Quote = true.
Proof. reflexivity. Qed.

Lemma escape_lineBytes f :
  allBytes lineByte f = true → allBytes lineByte (escape f) = true.
Proof.
  induction f as [|c f IH]; [done|]. cbn [allBytes escape].
  intros [Hc Hf]%andb_true_iff.
  destruct (Ascii.eqb c csv.Quote); cbn [allBytes];
    rewrite Hc, IH by done; done.
Qed.

Lemma quoteField_lineBytes f :
  allBytes lineByte f = true → allBytes lineByte (quoteField f) = true.
Proof.
  intros Hf. unfold quoteField. cbn [allBytes].
  rewrite allBytes_append, escape_lineBytes by done. done.
Qed.

Lemma quoteField_append f rest :
  quoteField f +:+ rest
  = String csv.Quote (escape f +:+ String csv.Quote rest).
Proof.
  unfold quoteField. by rewrite append_String, append_assoc, append_String.
Qed.

(** Inside the quotes every byte belongs to the field, and two quotes
    stand for one. *)
Lemma scan_quoted f : ∀ fields cur rest,
  csv.scan csv.Quoted fields cur (escape f +:+ String csv.Quote rest)
  = csv.scan csv.QuoteSeen fields (cur +:+ f) rest.
Proof.
  induction f as [|c f IH]; intros fields cur rest.
  - rewrite append_nil_r. done.
  - cbn [escape]. destruct (Ascii.eqb c csv.Quote) eqn:Hc.
    + rewrite !append_String. cbn [csv.scan]. rewrite !Hc.
      cbn [csv.scan]. rewrite ?Hc, IH.
      unfold csv.snoc. by rewrite append_assoc, append_String.
    + rewrite append_String. cbn [csv.scan]. rewrite Hc, IH.
      unfold csv.snoc. by rewrite append_assoc, append_String.
Qed.

Lemma scan_quoted_join fs : ∀ f fields cur,
  csv.scan csv.FieldStart fields cur
    (join (quoteField <$> f :: fs) +:+ String csv.NL EmptyString)
  = csv.Done (fields ++ f :: fs).
Proof.
  induction fs as [|g fs IH]; intros f fields cur.
  - cbn [fmap list_fmap join]. rewrite quoteField_append.
    cbn [csv.scan]. rewrite scan_quoted. done.
  - rewrite !fmap_cons, join_cons, append_assoc, quoteField_append.
    cbn [csv.scan]. rewrite scan_quoted, append_String.
    cbn [csv.scan]. rewrite <- fmap_cons, IH.
    by rewrite <- app_assoc.
Qed.

Lemma join_quoted_nonempty f fs :
  join (quoteField <$> f :: fs) ≠ EmptyString.
Proof. rewrite fmap_cons. by destruct (quoteField <$> fs). Qed.

Lemma join_quoted_lineBytes fields :
  Forall (λ f, allBytes lineByte f = true) fields →
  allBytes lineByte (join (quoteField <$> fields)) = true.
Proof.
  induction 1 as [|f fields Hf Hfs IH]; [done|].
  destruct fields as [|g fields]; [by apply quoteField_lineBytes|].
  rewrite !fmap_cons, join_cons, allBytes_append. cbn [allBytes].
  rewrite quoteField_lineBytes by done. by rewrite <- fmap_cons, IH.
Qed.

Lemma readRecords_quoted rows :
  Forall (λ r : list string, r ≠ []) rows →
  csv.readRecords (-1) None
    ((λ line, line +:+ String csv.NL EmptyString)
       <$> ((λ r : list string, join (quoteField <$> r)) <$> rows))
  = inr rows.
Proof.
  induction 1 as [|row rows Hne _ IH]; [done|].
  rewrite !fmap_cons. cbn [csv.readRecords]. unfold csv.lineStep.
  destruct row as [|f fs]; [done|].
  rewrite blank_line_false by apply join_quoted_nonempty.
  rewrite scan_quoted_join. cbn [app].
  rewrite checkFieldCount_neg by lia. by rewrite IH.
Qed.

(** X10: any table of cells without line breaks can be written so that
    [CsvToSlice] reads it back: with every field between quotes and the
    quotes inside a field doubled, the column of a name holds, row by row,
    the cells as they were, commas, quotes and blanks included. *)
Theorem X10_quoted_text_is_read_back header rows :
  Forall (λ r : list string,
            r ≠ [] ∧ Forall (λ f, allBytes lineByte f = true) r)
         (header :: rows) →
  Forall (λ r : list string, length r = length header) rows →
  ∃ t, CsvToSlice
         (text ((λ r : list string, join (quoteField <$> r))
                  <$> header :: rows)) = Ok t
     ∧ dom t = list_to_set header
     ∧ ∀ col, col ∈ header →
         ∃ j vs, header !! j = Some col
               ∧ t !! col = Some vs
               ∧ Forall2 (λ v r, r !! j = Some v) vs rows.
Proof.
  intros Hrows Hrect. exists (buildColumns 0 header rows ∅).
  split.
  - rewrite (CsvToSlice_unchecked _ (header :: rows)).
    + by rewrite decide_True.
    + unfold csv.ReadAll. cbn [csv.src csv.FieldsPerRecord].
      rewrite readLines_text.
      * apply readRecords_quoted. eapply Forall_impl; [exact Hrows|].
        by intros r [? _].
      * apply Forall_fmap. eapply Forall_impl; [exact Hrows|].
        intros r [_ Hr]. by apply join_quoted_lineBytes.
  - split; [apply buildColumns_dom|by apply table_columns].
Qed.

Lemma X10_quoted_text_is_read_back_witness :
  ∃ t, CsvToSlice
         (text ((λ r : list string, join (quoteField <$> r))
                  <$> ["name"; "note"]
                      :: [["Doe, Jane"; " said " +:+ dq +:+ "hi" +:+ dq];
                          [""; ","]])) = Ok t
     ∧ dom t = list_to_set ["name"; "note"]
     ∧ ∀ col, col ∈ ["name"; "note"] →
         ∃ j vs, ["name"; "note"] !! j = Some col
               ∧ t !! col = Some vs
               ∧ Forall2 (λ v r, r !! j = Some v) vs
                   [["Doe, Jane"; " said " +:+ dq +:+ "hi" +:+ dq];
                    [""; ","]].
Proof.
  apply (X10_quoted_text_is_read_back ["name"; "note"]
           [["Doe, Jane"; " said " +:+ dq +:+ "hi" +:+ dq]; [""; ","]]).
  - repeat constructor; done.
  - repeat constructor.
Defined.

(** ** The loop of [ConnectAIModel], attempt by attempt *)

Section Loop.
Context `{codec : JSON}.

Lemma attempt_decode_error c req i resp err :
  Client c i req = Ok resp →
  http.StatusCode resp = http.StatusOK →
  json_Decode (http.Body resp) = Err err →
  attempt c req i = (Return (Err err), [EvDo req]).
Proof. unfold attempt. intros -> -> Hd. simpl. by rewrite Hd. Qed.

Lemma loadingEstimate_Some_inv resp est reader :
  loadingEstimate resp = (Some est, reader) → isLoading resp est.
Proof.
  unfold loadingEstimate, isLoading.
  destruct (Z.eqb_spec (http.StatusCode resp) http.StatusServiceUnavailable)
    as [Hcode|]; [|discriminate].
  cbn [ioutil_ReadAll].
  destruct (json_Unmarshal (http.Body resp)) as [result|]; [|discriminate].
  destruct (result !! "estimated_time") as [[]|] eqn:Hest; try discriminate.
  intros [= <- _]. split; [done|]. by exists result.
Qed.

(** An attempt lets the loop go on only for a loading 503. *)
Lemma attempt_Continue_inv c req i evs :
  attempt c req i = (Continue, evs) →
  ∃ resp est, Client c i req = Ok resp ∧ isLoading resp est
            ∧ evs = loadingEvents req est.
Proof.
  unfold attempt. destruct (Client c i req) as [resp|]; [|discriminate].
  destruct (http.StatusCode resp =? http.StatusOK)%Z.
  - by destruct (json_Decode (http.Body resp)).
  - destruct (loadingEstimate resp) as [[est|] reader] eqn:Hl;
      [|discriminate].
    intros [= <-]. exists resp, est.
    split; [done|]. split; [by eapply loadingEstimate_Some_inv|done].
Qed.

(** An attempt returns an answer only for a 200 whose body decodes. *)
Lemma attempt_Return_Ok_inv c req i ai evs :
  attempt c req i = (Return (Ok ai), evs) →
  ∃ resp, Client c i req = Ok resp
        ∧ http.StatusCode resp = http.StatusOK
        ∧ json_Decode (http.Body resp) = Ok ai
        ∧ evs = [EvDo req].
Proof.
  unfold attempt. destruct (Client c i req) as [resp|]; [|discriminate].
  destruct (Z.eqb_spec (http.StatusCode resp) http.StatusOK) as [Hcode|].
  - destruct (json_Decode (http.Body resp)) as [ai'|] eqn:Hd;
      [|discriminate].
    intros [= <- <-]. by exists resp.
  - by destruct (loadingEstimate resp) as [[est|] reader].
Qed.

(** Every attempt sends one request, the one it was given. *)
Lemma attempt_events c req i :
  ∃ evs, (attempt c req i).2 = EvDo req :: evs
       ∧ Forall (λ ev, isDo ev = false) evs.
Proof.
  unfold attempt. destruct (Client c i req) as [resp|].
  - destruct (http.StatusCode resp =? http.StatusOK)%Z.
    + destruct (json_Decode (http.Body resp)); by exists [].
    + destruct (loadingEstimate resp) as [[est|] reader].
      * eexists. split; [reflexivity|]. by repeat constructor.
      * by exists [].
  - by exists [].
Qed.

Lemma requests_cons_Do req evs :
  Forall (λ ev, isDo ev = false) evs → requests (EvDo req :: evs) = 1.
Proof.
  unfold requests. cbn [List.filter isDo length]. intros Hall. f_equal.
  induction Hall as [|ev evs Hev _ IH]; [done|].
  cbn [List.filter]. by rewrite Hev.
Qed.

Lemma retryLoop_requests_le c req : ∀ n i,
  (requests (retryLoop c req n i).2 ≤ n)%nat.
Proof.
  induction n as [|n IH]; intros i; [done|]. cbn [retryLoop].
  destruct (attempt_events c req i) as (evs & Hevs & Hnot).
  destruct (attempt c req i) as [[r|] evs0]; cbn [snd] in *; subst evs0.
  - rewrite requests_cons_Do by done. lia.
  - specialize (IH (S i)).
    destruct (retryLoop c req n (S i)) as [r evs']. cbn [snd] in *.
    rewrite requests_app, requests_cons_Do by done. lia.
Qed.


(** The first attempt that is not answered by a loading 503 decides what
    [ConnectAIModel] returns. *)
Lemma ConnectAIModel_first_return c payload token data ests k r evs :
  json_Marshal payload = Ok data →
  k < maxRetries →
  (∀ i, i < k → ∃ resp,
      Client c i (requestFor data token) = Ok resp
      ∧ isLoading resp (ests i)) →
  attempt c (requestFor data token) k = (Return r, evs) →
  ConnectAIModel c payload token =
    (r, flat_map (λ j, loadingEvents (requestFor data token) (ests j))
          (seq 0 k) ++ evs).
Proof.
  intros Hm Hk Hload Hret.
  unfold ConnectAIModel. rewrite (buildRequest_Ok _ _ _ Hm).
  replace maxRetries with (k + S (maxRetries - S k)) by lia.
  rewrite (retryLoop_loading c _ ests k _ 0); [|exact Hload].
  cbn [Nat.add retryLoop]. by rewrite Hret.
Qed.

Lemma retryLoop_Ok_inv c req : ∀ n i ai evs,
  retryLoop c req n i = (Ok ai, evs) →
  ∃ (ests : list float) resp,
    length ests < n
    ∧ (∀ j est, ests !! j = Some est →
         ∃ resp', Client c (i + j) req = Ok resp' ∧ isLoading resp' est)
    ∧ Client c (i + length ests) req = Ok resp
    ∧ http.StatusCode resp = http.StatusOK
    ∧ json_Decode (http.Body resp) = Ok ai
    ∧ evs = flat_map (loadingEvents req) ests ++ [EvDo req].
Proof.
  induction n as [|n IH]; intros i ai evs; cbn [retryLoop];
    [discriminate|].
  destruct (attempt c req i) as [[r|] evs0] eqn:Hatt.
  - intros [= -> ->].
    apply attempt_Return_Ok_inv in Hatt as (resp & Hdo & Hcode & Hdec & ->).
    exists [], resp. cbn [length]. rewrite Nat.add_0_r.
    split; [lia|]. split; [by intros j est ?|done].
  - destruct (retryLoop c req n (S i)) as [r evs'] eqn:Hloop.
    intros [= -> <-].
    apply attempt_Continue_inv in Hatt as (resp0 & est0 & Hdo0 & Hl0 & ->).
    apply IH in Hloop
      as (ests & resp & Hlen & Hpre & Hdo & Hcode & Hdec & ->).
    exists (est0 :: ests), resp. cbn [length].
    split; [lia|]. split.
    + intros [|j] est Hj.
      * injection Hj as <-. rewrite Nat.add_0_r. by exists resp0.
      * replace (i + S j) with (S i + j) by lia. by apply Hpre.
    + replace (i + S (length ests)) with (S i + length ests) by lia.
      split; [done|]. split; [done|]. split; [done|].
      cbn [flat_map]. by rewrite <- app_assoc.
Qed.

(** X11: whatever the service answers, one call of [ConnectAIModel] sends
    at most ten requests. *)
Theorem X11_at_most_ten_requests c payload token :
  (requests (ConnectAIModel c payload token).2 ≤ 10)%nat.
Proof.
  unfold ConnectAIModel.
  destruct (buildRequest payload token) as [req|]; [|cbn; lia].
  apply (retryLoop_requests_le c req maxRetries 0).
Qed.



(** X13: a 200 whose body does not decode is not tried again: at whatever
    attempt it comes, the earlier ones having been answered by loading
    503s, [ConnectAIModel] returns the error of the decoder and the
    request of that attempt is its last. *)
Theorem X13_decode_error_is_not_retried
    c payload token data ests k resp err :
  json_Marshal payload = Ok data →
  k < maxRetries →
  (∀ i, i < k → ∃ resp',
      Client c i (requestFor data token) = Ok resp'
      ∧ isLoading resp' (ests i)) →
  Client c k (requestFor data token) = Ok resp →
  http.StatusCode resp = http.StatusOK →
  json_Decode (http.Body resp) = Err err →
  ConnectAIModel c payload token =
    (Err err,
     flat_map (λ j, loadingEvents (requestFor data token) (ests j)) (seq 0 k)
     ++ [EvDo (requestFor data token)])
  ∧ requests (ConnectAIModel c payload token).2 = k + 1.
Proof.
  intros Hm Hk Hload Hdo Hcode Hdec.
  pose proof (ConnectAIModel_first_return _ _ _ _ _ _ _ _ Hm Hk Hload
                (attempt_decode_error _ _ _ _ _ Hdo Hcode Hdec)) as Hrun.
  split; [exact Hrun|]. rewrite Hrun. cbn [snd].
  rewrite requests_app, requests_loading. done.
Qed.

(** X14: an answer with a status other than 200 and 503 ends the call at
    whatever attempt it comes, the earlier ones having been answered by
    loading 503s: the error has the status line and the body of that
    answer, and the request of that attempt is the last. *)
Theorem X14_other_status_ends_the_call
    c payload token data ests k resp :
  json_Marshal payload = Ok data →
  k < maxRetries →
  (∀ i, i < k → ∃ resp',
      Client c i (requestFor data token) = Ok resp'
      ∧ isLoading resp' (ests i)) →
  Client c k (requestFor data token) = Ok resp →
  http.StatusCode resp ≠ http.StatusOK →
  http.StatusCode resp ≠ http.StatusServiceUnavailable →
  ConnectAIModel c payload token =
    (Err (fmt_Errorf_status (http.Status resp) (http.Body resp)),
     flat_map (λ j, loadingEvents (requestFor data token) (ests j)) (seq 0 k)
     ++ [EvDo (requestFor data token)])
  ∧ requests (ConnectAIModel c payload token).2 = k + 1.
Proof.
  intros Hm Hk Hload Hdo H200 H503.
  pose proof (ConnectAIModel_first_return _ _ _ _ _ _ _ _ Hm Hk Hload
                (attempt_other_status _ _ _ _ Hdo H200 H503)) as Hrun.
  split; [exact Hrun|]. rewrite Hrun. cbn [snd].
  rewrite requests_app, requests_loading. done.
Qed.

(** X15: [ConnectAIModel] returns an answer only when one of its attempts
    got a 200 whose body decodes to that answer, every attempt before it
    having been answered by a loading 503; it has then slept once for
    each of these and sent nothing after the 200. *)
Theorem X15_answer_comes_from_a_200 c payload token ai evs :
  ConnectAIModel c payload token = (Ok ai, evs) →
  ∃ data (ests : list float) resp,
    json_Marshal payload = Ok data
    ∧ length ests < maxRetries
    ∧ (∀ j est, ests !! j = Some est →
         ∃ resp', Client c j (requestFor data token) = Ok resp'
                ∧ isLoading resp' est)
    ∧ Client c (length ests) (requestFor data token) = Ok resp
    ∧ http.StatusCode resp = http.StatusOK
    ∧ json_Decode (http.Body resp) = Ok ai
    ∧ evs = flat_map (loadingEvents (requestFor data token)) ests
            ++ [EvDo (requestFor data token)].
Proof.
  unfold ConnectAIModel, buildRequest.
  destruct (json_Marshal payload) as [data|] eqn:Hm; [|discriminate].
  cbn [http.NewRequest].
  intros (ests & resp & Hlen & Hpre & Hdo & Hcode & Hdec & ->)%retryLoop_Ok_inv.
  exists data, ests, resp. by repeat split.
Qed.

(** X16: when each of the ten attempts is answered by a loading 503,
    whatever the estimates are, [ConnectAIModel] fails with the error of
    the exhausted retries after ten requests, having slept after each for
    the estimate of its answer cut to whole seconds. *)
Theorem X16_ten_loading_answers_exhaust_the_retries
    c payload token data ests :
  json_Marshal payload = Ok data →
  (∀ i, i < maxRetries → ∃ resp,
      Client c i (requestFor data token) = Ok resp
      ∧ isLoading resp (ests i)) →
  ConnectAIModel c payload token =
    (Err errMaxRetries,
     flat_map (λ j, [EvDo (requestFor data token); EvLog (ests j);
                     EvSleep (wrap64 (Duration_of_float64 (ests j) * Second))])
       (seq 0 10))
  ∧ requests (ConnectAIModel c payload token).2 = 10.
Proof.
  intros Hm Hload.
  assert (Hrun : ConnectAIModel c payload token =
    (Err errMaxRetries,
     flat_map (λ j, loadingEvents (requestFor data token) (ests j))
       (seq 0 10))).
  { unfold ConnectAIModel. rewrite (buildRequest_Ok _ _ _ Hm).
    change maxRetries with (10 + 0).
    rewrite (retryLoop_loading c _ ests 10 0 0); [|exact Hload].
    cbn [retryLoop Nat.add]. by rewrite app_nil_r. }
  split; [exact Hrun|]. rewrite Hrun. cbn [snd].
  apply requests_loading.
Qed.

(** ** The handler and the loop together *)

(** X17: when the form has a text for [query], the service answers [k]
    times that it is loading and then with a 200 whose body decodes, the
    handler renders the page with status 200, the text of the query and
    the four fields of the decoded answer, after [k + 1] requests. *)
Theorem X17_handler_shows_the_answer
    table token connector c data ests k resp ai :
  gin.PostForm c "query" ≠ EmptyString →
  json_Marshal {| Table := table; Query := gin.PostForm c "query" |}
    = Ok data →
  k < maxRetries →
  (∀ i, i < k → ∃ resp',
      Client connector i (requestFor data token) = Ok resp'
      ∧ isLoading resp' (ests i)) →
  Client connector k (requestFor data token) = Ok resp →
  http.StatusCode resp = http.StatusOK →
  json_Decode (http.Body resp) = Ok ai →
  ∃ page evs,
    queryHandler table token connector c = (page, evs)
    ∧ gin.code page = 200%Z
    ∧ gin.name page = "index.html"
    ∧ dom (gin.obj page)
      = {[ "query"; "answer"; "coordinates"; "cells"; "aggregator" ]}
    ∧ gin.obj page !! "query" = Some (gin.VString (gin.PostForm c "query"))
    ∧ gin.obj page !! "answer" = Some (gin.VString (Answer ai))
    ∧ gin.obj page !! "coordinates"
      = Some (gin.VCoordinates (Coordinates ai))
    ∧ gin.obj page !! "cells" = Some (gin.VCells (Cells ai))
    ∧ gin.obj page !! "aggregator" = Some (gin.VString (Aggregator ai))
    ∧ requests evs = k + 1.
Proof.
  intros Hq Hm Hk Hload Hdo Hcode Hdec.
  pose proof (ConnectAIModel_first_return _ _ _ _ _ _ _ _ Hm Hk Hload
                (attempt_ok _ _ _ _ _ Hdo Hcode Hdec)) as Hrun.
  unfold queryHandler. rewrite decide_False by done. rewrite Hrun.
  eexists _, _. split; [reflexivity|]. cbn [gin.code gin.name gin.obj].
  split; [done|]. split; [done|].
  split; [rewrite !dom_insert_L, dom_singleton_L; set_solver|].
  repeat (split; [by simplify_map_eq|]).
  rewrite requests_app, requests_loading. done.
Qed.

(** X18: when the form has a text for [query] and the service answers, at
    the first attempt that is not a loading 503, with a status other than
    200 and 503, the handler renders the page with status 500 and a
    message that has the status line and the body of that answer. *)
Theorem X18_handler_shows_the_failure
    table token connector c data ests k resp :
  gin.PostForm c "query" ≠ EmptyString →
  json_Marshal {| Table := table; Query := gin.PostForm c "query" |}
    = Ok data →
  k < maxRetries →
  (∀ i, i < k → ∃ resp',
      Client connector i (requestFor data token) = Ok resp'
      ∧ isLoading resp' (ests i)) →
  Client connector k (requestFor data token) = Ok resp →
  http.StatusCode resp ≠ http.StatusOK →
  http.StatusCode resp ≠ http.StatusServiceUnavailable →
  ∃ evs,
    queryHandler table token connector c =
      (gin.mkHTML 500 "index.html"
         {[ "error" := gin.VString
              ("Error connecting to AI model: "
               +:+ "failed to connect to AI model, status: "
               +:+ http.Status resp +:+ ", response: " +:+ http.Body resp) ]},
       evs)
    ∧ requests evs = k + 1.
Proof.
  intros Hq Hm Hk Hload Hdo H200 H503.
  pose proof (ConnectAIModel_first_return _ _ _ _ _ _ _ _ Hm Hk Hload
                (attempt_other_status _ _ _ _ Hdo H200 H503)) as Hrun.
  unfold queryHandler. rewrite decide_False by done. rewrite Hrun.
  eexists. split; [reflexivity|].
  rewrite requests_app, requests_loading. done.
Qed.

(** X19: whatever the form and the service, the handler renders
    [index.html] with one of the statuses 200, 400 and 500, and sends at
    most ten requests; it sends none when the status is 400. *)
Theorem X19_handler_statuses table token connector c :
  gin.name (queryHandler table token connector c).1 = "index.html"
  ∧ (gin.code (queryHandler table token connector c).1 = 200%Z
     ∨ gin.code (queryHandler table token connector c).1 = 400%Z
     ∨ gin.code (queryHandler table token connector c).1 = 500%Z)
  ∧ (requests (queryHandler table token connector c).2 ≤ 10)%nat
  ∧ (gin.code (queryHandler table token connector c).1 = 400%Z →
     (queryHandler table token connector c).2 = []).
Proof.
  unfold queryHandler.
  destruct (decide (gin.PostForm c "query" = EmptyString)) as [Hq|Hq].
  - cbn. repeat split; auto. lia.
  - assert (Hle : (requests
              (ConnectAIModel connector
                 {| Table := table; Query := gin.PostForm c "query" |}
                 token).2 ≤ 10)%nat).
    { unfold ConnectAIModel.
      destruct (buildRequest _ token) as [req|]; [|cbn; lia].
      apply (retryLoop_requests_le connector req maxRetries 0). }
    destruct (ConnectAIModel connector _ token) as [[ai|err] evs];
      cbn [fst snd gin.code gin.name] in *;
      repeat split; auto; discriminate.
Qed.

(** X20: a form without the key [query], or with the key and no value, is
    answered as one with an empty text: status 400 and no request. *)
Theorem X20_missing_query_is_rejected table token connector c :
  gin.Form c !! "query" = None ∨ gin.Form c !! "query" = Some [] →
  queryHandler table token connector c =
    (gin.mkHTML 400 "index.html"
       {[ "error" := gin.VString "Query cannot be empty" ]}, []).
Proof.
  intros Hform. unfold queryHandler.
  assert (Hq : gin.PostForm c "query" = EmptyString).
  { unfold gin.PostForm. by destruct Hform as [-> | ->]. }
  by rewrite decide_True.
Qed.

End Loop.


Lemma X13_decode_error_is_not_retried_witness :
  @ConnectAIModel exampleJSON
     {| Client := λ i _, match i with
                         | 0 => Ok loading503
                         | _ => Ok garbled200
                         end |}
     samplePayload "secret" =
    (Err (JSONError "invalid character"),
     flat_map (λ j, loadingEvents (requestFor "{}" "secret") 0%float)
       (seq 0 1)
     ++ [EvDo (requestFor "{}" "secret")])
  ∧ requests
      (@ConnectAIModel exampleJSON
         {| Client := λ i _, match i with
                             | 0 => Ok loading503
                             | _ => Ok garbled200
                             end |}
         samplePayload "secret").2 = 1 + 1.
Proof.
  apply (@X13_decode_error_is_not_retried exampleJSON _ samplePayload
           "secret" "{}" (λ _, 0%float) 1 garbled200
           (JSONError "invalid character")).
  - reflexivity.
  - unfold maxRetries. lia.
  - intros i Hi. exists loading503. split.
    + destruct i as [|i]; [reflexivity|lia].
    + exact isLoading_loading503.
  - reflexivity.
  - reflexivity.
  - reflexivity.
Defined.

Lemma X14_other_status_ends_the_call_witness :
  @ConnectAIModel exampleJSON
     {| Client := λ i _, match i with
                         | 0 | 1 => Ok loading503
                         | _ => Ok notFound404
                         end |}
     samplePayload "secret" =
    (Err (fmt_Errorf_status "404 Not Found" "Not Found"),
     flat_map (λ j, loadingEvents (requestFor "{}" "secret") 0%float)
       (seq 0 2)
     ++ [EvDo (requestFor "{}" "secret")])
  ∧ requests
      (@ConnectAIModel exampleJSON
         {| Client := λ i _, match i with
                             | 0 | 1 => Ok loading503
                             | _ => Ok notFound404
                             end |}
         samplePayload "secret").2 = 2 + 1.
Proof.
  apply (@X14_other_status_ends_the_call exampleJSON _ samplePayload
           "secret" "{}" (λ _, 0%float) 2 notFound404).
  - reflexivity.
  - unfold maxRetries. lia.
  - intros i Hi. exists loading503. split.
    + destruct i as [|[|i]]; [reflexivity|reflexivity|lia].
    + exact isLoading_loading503.
  - reflexivity.
  - done.
  - done.
Defined.

Lemma X15_answer_comes_from_a_200_witness :
  ∃ data (ests : list float) resp,
    @json_Marshal exampleJSON samplePayload = Ok data
    ∧ length ests < maxRetries
    ∧ (∀ j est, ests !! j = Some est →
         ∃ resp', Client loadingOnce j (requestFor data "secret") = Ok resp'
                ∧ @isLoading exampleJSON resp' est)
    ∧ Client loadingOnce (length ests) (requestFor data "secret") = Ok resp
    ∧ http.StatusCode resp = http.StatusOK
    ∧ @json_Decode exampleJSON (http.Body resp) = Ok sampleAnswer
    ∧ (@ConnectAIModel exampleJSON loadingOnce samplePayload "secret").2
      = flat_map (loadingEvents (requestFor data "secret")) ests
        ++ [EvDo (requestFor data "secret")].
Proof.
  apply (@X15_answer_comes_from_a_200 exampleJSON loadingOnce samplePayload
           "secret" sampleAnswer).
  reflexivity.
Defined.

Lemma X16_ten_loading_answers_exhaust_the_retries_witness :
  @ConnectAIModel exampleJSON alwaysLoading samplePayload "secret" =
    (Err errMaxRetries,
     flat_map (λ j, [EvDo (requestFor "{}" "secret"); EvLog 0%float;
                     EvSleep (wrap64 (Duration_of_float64 0%float * Second))])
       (seq 0 10))
  ∧ requests
      (@ConnectAIModel exampleJSON alwaysLoading samplePayload "secret").2
    = 10.
Proof.
  apply (@X16_ten_loading_answers_exhaust_the_retries exampleJSON
           alwaysLoading samplePayload "secret" "{}" (λ _, 0%float)).
  - reflexivity.
  - intros i _. exists loading503. split; [reflexivity|].
    exact isLoading_loading503.
Defined.

Lemma X17_handler_shows_the_answer_witness :
  ∃ page evs,
    @queryHandler exampleJSON {[ "a" := ["1"] ]} "secret" loadingOnce
       {| gin.Form := {[ "query" := ["how many?"] ]} |} = (page, evs)
    ∧ gin.code page = 200%Z
    ∧ gin.name page = "index.html"
    ∧ dom (gin.obj page)
      = {[ "query"; "answer"; "coordinates"; "cells"; "aggregator" ]}
    ∧ gin.obj page !! "query"
      = Some (gin.VString
                (gin.PostForm {| gin.Form := {[ "query" := ["how many?"] ]} |}
                   "query"))
    ∧ gin.obj page !! "answer" = Some (gin.VString (Answer sampleAnswer))
    ∧ gin.obj page !! "coordinates"
      = Some (gin.VCoordinates (Coordinates sampleAnswer))
    ∧ gin.obj page !! "cells" = Some (gin.VCells (Cells sampleAnswer))
    ∧ gin.obj page !! "aggregator"
      = Some (gin.VString (Aggregator sampleAnswer))
    ∧ requests evs = 1 + 1.
Proof.
  apply (@X17_handler_shows_the_answer exampleJSON {[ "a" := ["1"] ]}
           "secret" loadingOnce
           {| gin.Form := {[ "query" := ["how many?"] ]} |}
           "{}" (λ _, 0%float) 1 answer200 sampleAnswer).
  - vm_compute. discriminate.
  - reflexivity.
  - unfold maxRetries. lia.
  - intros i Hi. exists loading503. split.
    + destruct i as [|i]; [reflexivity|lia].
    + exact isLoading_loading503.
  - reflexivity.
  - reflexivity.
  - reflexivity.
Defined.

Lemma X18_handler_shows_the_failure_witness :
  ∃ evs,
    @queryHandler exampleJSON {[ "a" := ["1"] ]} "secret"
       {| Client := λ _ _, Ok notFound404 |}
       {| gin.Form := {[ "query" := ["how many?"] ]} |} =
      (gin.mkHTML 500 "index.html"
         {[ "error" := gin.VString
              ("Error connecting to AI model: "
               +:+ "failed to connect to AI model, status: "
               +:+ "404 Not Found" +:+ ", response: " +:+ "Not Found") ]},
       evs)
    ∧ requests evs = 0 + 1.
Proof.
  apply (@X18_handler_shows_the_failure exampleJSON {[ "a" := ["1"] ]}
           "secret" {| Client := λ _ _, Ok notFound404 |}
           {| gin.Form := {[ "query" := ["how many?"] ]} |}
           "{}" (λ _, 0%float) 0 notFound404).
  - vm_compute. discriminate.
  - reflexivity.
  - unfold maxRetries. lia.
  - intros i Hi. lia.
  - reflexivity.
  - done.
  - done.
Defined.

Lemma X20_missing_query_is_rejected_witness :
  @queryHandler exampleJSON {[ "a" := ["1"] ]} "secret" loadingOnce
     {| gin.Form := {[ "question" := ["how many?"] ]} |} =
    (gin.mkHTML 400 "index.html"
       {[ "error" := gin.VString "Query cannot be empty" ]}, []).
Proof.
  apply (@X20_missing_query_is_rejected exampleJSON {[ "a" := ["1"] ]}
           "secret" loadingOnce
           {| gin.Form := {[ "question" := ["how many?"] ]} |}).
  left. reflexivity.
Defined.

(** ** The start of the process *)

(** X21: [main] goes on to serve only when the environment file was
    loaded, the token taken from the environment is not empty, the CSV
    file was read and [CsvToSlice] made a table of it; the handler then
    holds this token and this table. *)
Theorem X21_serving_means_checked host table token :
  main host = Serve table token →
  godotenv_Load host = None
  ∧ token = os_Getenv host "HUGGINGFACE_TOKEN"
  ∧ token ≠ EmptyString
  ∧ ∃ data, ioutil_ReadFile host csvFile = Ok data
          ∧ CsvToSlice data = Ok table.
Proof.
  unfold main. destruct (godotenv_Load host); [discriminate|].
  destruct (decide (os_Getenv host "HUGGINGFACE_TOKEN" = EmptyString))
    as [|Htoken]; [discriminate|].
  destruct (ioutil_ReadFile host csvFile) as [data|]; [|discriminate].
  destruct (CsvToSlice data) as [t|] eqn:Hcsv; [|discriminate].
  intros [= <- <-]. repeat split; [done|]. by exists data.
Qed.

Lemma X21_serving_means_checked_witness :
  godotenv_Load (hostWith (text ["a,b"; "1,2"])) = None
  ∧ "hf_token" = os_Getenv (hostWith (text ["a,b"; "1,2"])) "HUGGINGFACE_TOKEN"
  ∧ "hf_token" ≠ EmptyString
  ∧ ∃ data, ioutil_ReadFile (hostWith (text ["a,b"; "1,2"])) csvFile = Ok data
          ∧ CsvToSlice data = Ok (buildColumns 0 ["a"; "b"] [["1"; "2"]] ∅).
Proof.
  apply (X21_serving_means_checked (hostWith (text ["a,b"; "1,2"]))
           (buildColumns 0 ["a"; "b"] [["1"; "2"]] ∅) "hf_token").
  reflexivity.
Defined.

(** X22: the process does not start on a CSV file in which a row has
    fewer or more fields than the header: with the environment loaded and
    a token set, [main] ends in [log.Fatalf] with the parsing message and
    the reader's field-count error. *)
Theorem X22_ragged_file_is_fatal host data header rows row :
  godotenv_Load host = None →
  os_Getenv host "HUGGINGFACE_TOKEN" ≠ EmptyString →
  ioutil_ReadFile host csvFile = Ok data →
  csv.ReadAll (csv.mkReader (-1) data) = inr (header :: rows) →
  row ∈ rows → length row ≠ length header →
  main host =
    Fatalf ("Error parsing CSV file: %v" +:+ String csv.NL EmptyString)
      (Some (ParseError ErrFieldCount)).
Proof.
  intros Hload Htoken Hfile Hread Hin Hlen. unfold main.
  rewrite Hload, decide_False, Hfile by done.
  rewrite (CsvToSlice_unchecked _ _ Hread).
  rewrite decide_False; [done|].
  intros Hall. by apply (proj1 (Forall_forall _ _) Hall row) in Hin.
Qed.

Lemma X22_ragged_file_is_fatal_witness :
  main (hostWith (text ["a,b,c"; "1,2,3"; "4,5"])) =
    Fatalf ("Error parsing CSV file: %v" +:+ String csv.NL EmptyString)
      (Some (ParseError ErrFieldCount)).
Proof.
  apply (X22_ragged_file_is_fatal (hostWith (text ["a,b,c"; "1,2,3"; "4,5"]))
           (text ["a,b,c"; "1,2,3"; "4,5"]) ["a"; "b"; "c"]
           [["1"; "2"; "3"]; ["4"; "5"]] ["4"; "5"]).
  - reflexivity.
  - vm_compute. discriminate.
  - reflexivity.
  - reflexivity.
  - apply elem_of_cons. right. apply elem_of_cons. left. reflexivity.
  - simpl. lia.
Defined.

(** X23: the process does not start on a CSV file without a record, such
    as an empty file or one of empty lines: [main] ends in [log.Fatalf]
    with the parsing message and the error [no data found]. *)
Theorem X23_file_without_record_is_fatal host data :
  godotenv_Load host = None →
  os_Getenv host "HUGGINGFACE_TOKEN" ≠ EmptyString →
  ioutil_ReadFile host csvFile = Ok data →
  Forall (λ line, csv.blank line = true) (csv.readLines data) →
  main host =
    Fatalf ("Error parsing CSV file: %v" +:+ String csv.NL EmptyString)
      (Some errNoData).
Proof.
  intros Hload Htoken Hfile Hblank. unfold main.
  rewrite Hload, decide_False, Hfile by done.
  apply ReadAll_nil_iff in Hblank.
  by rewrite (CsvToSlice_records _ _ Hblank).
Qed.

Lemma X23_file_without_record_is_fatal_witness :
  main (hostWith EmptyString) =
    Fatalf ("Error parsing CSV file: %v" +:+ String csv.NL EmptyString)
      (Some errNoData).
Proof.
  apply (X23_file_without_record_is_fatal (hostWith EmptyString) EmptyString).
  - reflexivity.
  - vm_compute. discriminate.
  - reflexivity.
  - constructor.
Defined.

Section Served.
Context `{codec : JSON}.


End Served.

